(** * chain-handler: the chaining engine [chain] and the builder [Chain]

    A shallow embedding of [chain.ts].

    - The platform types [Request] and [Response] are instances with an
      identity, kept in a store, and reduced to their observable content;
      [clone] makes a new instance of the same content.
    - An [async] function is its completed computation and [await] is
      sequencing: a computation takes the store and gives a completion (a
      value, or what was thrown) and the store it leaves.  Handlers are
      functions of the request instance and of [next] into such
      computations.
    - The handler arrays and the [Chain] objects live in a store of their
      own, which the handlers do not reach.
    - A content does not say whether a body was read.  [clone] is the
      platform's on a request or response whose body is still to be read;
      the one place where the code uses up a body, [new Request(request)] in
      [respond], changes the content of its argument to what the platform
      makes of it, a function the statements are general in. *)

From Stdlib Require Import ZArith Lia.
From stdpp Require Import base list strings gmap.

Local Open Scope Z_scope.
Local Open Scope nat_scope.

(** ** The platform's values *)

Module Http.

Definition Headers := list (string * string).

(** Observable content of a [Request] instance. *)
Record Request := mkRequest {
  req_method : string;
  req_url : string;
  req_headers : Headers;
  req_body : option string
}.

(** Observable content of a [Response] instance. *)
Record Response := mkResponse {
  res_status : Z;
  res_headers : Headers;
  res_body : option string
}.

(** [headers.append(name, value)] *)
Definition headers_append (k v : string) (h : Headers) : Headers :=
  h ++ [(k, v)].

(** [headers.get(name)]: the values of that name joined, or [null]. *)
Definition headers_get (k : string) (h : Headers) : option string :=
  match filter (fun kv => bool_decide (kv.1 = k)) h with
  | [] => None
  | kv :: more => Some (foldl (fun acc x => acc +:+ ", " +:+ x.2) kv.2 more)
  end.

Definition append_header (k v : string) (r : Request) : Request :=
  {| req_method := req_method r; req_url := req_url r;
     req_headers := headers_append k v (req_headers r);
     req_body := req_body r |}.

(** [new Request(url)] *)
Definition request_of_url (url : string) : Request :=
  {| req_method := "GET"; req_url := url; req_headers := []; req_body := None |}.

(** [new Response(body, { status })] *)
Definition response_init (body : option string) (status : Z) : Response :=
  {| res_status := status; res_headers := []; res_body := body |}.

End Http.
Export Http.

(** ** The store and the computations over it *)

(** An instance is named by its index in the store: two references are the
    same instance exactly when they are equal. *)
Definition ReqRef := nat.
Definition ResRef := nat.
Definition ArrayId := nat.

Record World := mkWorld {
  requests : list Request;     (* the [Request] instances created so far *)
  responses : list Response;   (* the [Response] instances created so far *)
  arrays : nat;                (* how many arrays [run] has been given so far *)
  calls : list nat             (* the spies' call records, oldest first *)
}.

Inductive JsError :=
| TypeError
| Thrown (reason : string).

Inductive Completion (A : Type) :=
| Normal (a : A)
| Abrupt (e : JsError).
Arguments Normal {A} a.
Arguments Abrupt {A} e.

Definition M (A : Type) : Type := World -> Completion A * World.

Definition ret {A} (a : A) : M A := fun w => (Normal a, w).

Definition throw {A} (e : JsError) : M A := fun w => (Abrupt e, w).

Definition bind {A B} (m : M A) (k : A -> M B) : M B :=
  fun w =>
    match m w with
    | (Normal a, w') => k a w'
    | (Abrupt e, w') => (Abrupt e, w')
    end.

Notation "'let!' x ':=' m 'in' k" := (bind m (fun x => k))
  (at level 10, x pattern, m at level 100, k at level 200).

Definition with_requests (l : list Request) (w : World) : World :=
  {| requests := l; responses := responses w; arrays := arrays w; calls := calls w |}.

Definition with_responses (l : list Response) (w : World) : World :=
  {| requests := requests w; responses := l; arrays := arrays w; calls := calls w |}.

Definition with_arrays (n : nat) (w : World) : World :=
  {| requests := requests w; responses := responses w; arrays := n; calls := calls w |}.

Definition with_calls (l : list nat) (w : World) : World :=
  {| requests := requests w; responses := responses w; arrays := arrays w; calls := l |}.

(** [new Request(...)] / [new Response(...)]: a new instance. *)
Definition new_request (c : Request) : M ReqRef :=
  fun w => (Normal (length (requests w)), with_requests (requests w ++ [c]) w).

Definition new_response (c : Response) : M ResRef :=
  fun w => (Normal (length (responses w)), with_responses (responses w ++ [c]) w).

(** [request.clone()]; a reference that names no [Request] has no [clone]
    method to call. *)
Definition clone_request (r : ReqRef) : M ReqRef :=
  fun w =>
    match requests w !! r with
    | Some c => new_request c w
    | None => (Abrupt TypeError, w)
    end.

(** [response.clone()] *)
Definition clone_response (r : ResRef) : M ResRef :=
  fun w =>
    match responses w !! r with
    | Some c => new_response c w
    | None => (Abrupt TypeError, w)
    end.

(** A handler changing the [Request] instance [r] in place, for instance
    [request.headers.append(k, v)]. *)
Definition update_request (r : ReqRef) (f : Request -> Request) : M unit :=
  fun w =>
    match requests w !! r with
    | Some c => (Normal tt, with_requests (<[r := f c]> (requests w)) w)
    | None => (Abrupt TypeError, w)
    end.

(** The rest parameter [...handlers] of [run] is bound to a new array at
    every call: the arrays are numbered in the order of the calls.  (The
    other arrays of the engine are never looked up in [seen].) *)
Definition new_array : M ArrayId :=
  fun w => (Normal (arrays w), with_arrays (S (arrays w)) w).

(** ** types.ts *)

(** [NextHandler]: [(request?: Request) => Response | Promise<Response>] *)
Definition NextHandler := option ReqRef -> M ResRef.

(** [ChainableHandler]:
    [(request: Request, next: NextHandler) => Response | Promise<Response>] *)
Definition ChainableHandler := ReqRef -> NextHandler -> M ResRef.

(** What an entry of a handler array can be at run time: the type
    [readonly ChainableHandler[]] is erased, so any value can sit there. *)
Inductive Value :=
| VUndefined
| VNull
| VBoolean (b : bool)
| VNumber (z : Z)
| VString (s : string)
| VObject
| VFunction (h : ChainableHandler).

(** [!v] is [negb (truthy v)]. *)
Definition truthy (v : Value) : bool :=
  match v with
  | VUndefined | VNull => false
  | VBoolean b => b
  | VNumber z => negb (Z.eqb z 0)
  | VString s => negb (String.eqb s "")
  | VObject | VFunction _ => true
  end.


(** [first(request, next)]; calling what is not a function throws. *)
Definition call (v : Value) (request : ReqRef) (next : NextHandler) : M ResRef :=
  match v with
  | VFunction h => h request next
  | _ => throw TypeError
  end.

(** ** chain.ts: the engine *)

Module Engine.

(** [seen.has(handlers)] *)
Definition seen_has (seen : gset ArrayId) (handlers : ArrayId) : bool :=
  bool_decide (handlers ∈ seen).

(** [const nextHandler = async (nextRequest = request) =>
      (await run(nextRequest.clone(), response.clone(), ...rest)).clone()],
    with [run_rest] for [run] applied to the spread [...rest]. *)
Definition nextHandler (run_rest : ReqRef -> ResRef -> M ResRef)
    (request : ReqRef) (response : ResRef) : NextHandler :=
  fun nextRequest =>
    let nextRequest := default request nextRequest in
    let! r := clone_request nextRequest in
    let! s := clone_response response in
    let! x := run_rest r s in
    clone_response x.

(** The inner [run]; [seen] is the [WeakSet] of the enclosing [chain] call.
    No statement of [run] adds to it, so every call of one evaluation reads
    the set as [chain] created it. *)
Fixpoint run (seen : gset ArrayId) (handlers : list Value)
    (request : ReqRef) (response : ResRef) {struct handlers} : M ResRef :=
  let! this_handlers := new_array in
  if seen_has seen this_handlers then clone_response response
  else
    match handlers with
    | [] => clone_response response
    | first :: rest =>
        if negb (truthy first) then clone_response response
        else
          let! r := clone_request request in
          let! x := call first r (nextHandler (run seen rest) request response) in
          clone_response x
    end.

(** [export function chain(request, response, ...handlers)] *)
Definition chain (request : ReqRef) (response : ResRef)
    (handlers : list Value) : M ResRef :=
  let seen : gset ArrayId := ∅ in
  run seen handlers request response.

End Engine.
Export Engine.

(** ** chain.ts: the builder *)

Module Chain.

Definition ArrayRef := nat.
Definition ChainRef := nat.

(** The handler arrays and the [Chain] objects of a program.  A [Chain]
    object is its private field [#handlers], a reference to an array. *)
Record Store := mkStore {
  array_store : list (list Value);
  chain_store : list ArrayRef
}.

Definition new_array_of (l : list Value) (s : Store) : ArrayRef * Store :=
  (length (array_store s),
   {| array_store := array_store s ++ [l]; chain_store := chain_store s |}).

(** [new Chain(...init)]: the field initialiser [#handlers = []], then
    [this.#handlers = init ?? []] with the rest array [init]. *)
Definition construct (init : list Value) (s : Store) : ChainRef * Store :=
  let '(_, s) := new_array_of [] s in
  let '(init_ref, s) := new_array_of init s in
  (length (chain_store s),
   {| array_store := array_store s; chain_store := chain_store s ++ [init_ref] |}).

(** [get handlers()]: [return this.#handlers], the array itself. *)
Definition handlers (this : ChainRef) (s : Store) : option ArrayRef :=
  chain_store s !! this.

(** Reading an array a caller holds. *)
Definition read (a : ArrayRef) (s : Store) : option (list Value) :=
  array_store s !! a.

(** [next(...handlers)]:
    [this.#handlers = this.#handlers.concat(handlers); return this]. *)
Definition next (this : ChainRef) (handlers : list Value) (s : Store)
    : option (ChainRef * Store) :=
  match chain_store s !! this with
  | None => None
  | Some old_ref =>
      let '(handlers_ref, s) := new_array_of handlers s in
      match array_store s !! old_ref, array_store s !! handlers_ref with
      | Some old, Some added =>
          let '(new_ref, s) := new_array_of (old ++ added) s in
          Some (this,
                {| array_store := array_store s;
                   chain_store := <[this := new_ref]> (chain_store s) |})
      | _, _ => None
      end
  end.

(** What [new Request(request)] does to its argument: the constructor
    takes over the body of a request that has one, and the argument is left
    with that body used; a request without a body is left as it is.  A
    [Request] here says what a request holds, not whether its body was read:
    [used c] stands for the content of a request of content [c] once its
    body is used, whatever the platform makes it. *)
Definition body_taken (used : Request -> Request) (request : ReqRef)
    (w : World) : World :=
  match requests w !! request with
  | Some c =>
      match req_body c with
      | Some _ => with_requests (<[request := used c]> (requests w)) w
      | None => w
      end
  | None => w
  end.

(** [new Request(request)]: a new instance with the content of [request],
    the body included, the argument being left as [body_taken] says.  (A
    request whose body was used before cannot be told from another here; the
    platform's constructor throws on one.) *)
Definition request_from (used : Request -> Request) (request : ReqRef)
    : M ReqRef :=
  fun w =>
    match requests w !! request with
    | Some c => new_request c (body_taken used request w)
    | None => (Abrupt TypeError, w)
    end.

(** [respond(request, defaultResponse?)] *)
Definition respond (used : Request -> Request) (this : ChainRef) (s : Store)
    (request : ReqRef) (defaultResponse : option ResRef) : option (M ResRef) :=
  match handlers this s with
  | None => None
  | Some a =>
      match read a s with
      | None => None
      | Some this_handlers =>
          Some (let! newRequest := request_from used request in
                let! defaultResponse :=
                  match defaultResponse with
                  | Some d => ret d
                  | None => new_response (response_init None 404)
                  end in
                let! r := clone_request newRequest in
                let! s := clone_response defaultResponse in
                chain r s this_handlers)
      end
  end.

End Chain.

(** ** Handlers of the tests and of the README *)

Module Handlers.

(** [spy(h)] of the test suite: every call is recorded, under the spy's
    number, before [h] runs. *)
Definition record_call (k : nat) : M unit :=
  fun w => (Normal tt, with_calls (calls w ++ [k]) w).

Definition spy (k : nat) (h : ChainableHandler) : ChainableHandler :=
  fun request next => let! _ := record_call k in h request next.

(** [assertSpyCalls]: the number of calls a spy has recorded. *)
Definition spy_calls (k : nat) (w : World) : nat :=
  length (filter (fun j => j = k) (calls w)).

(** [(_, next) => next()] *)
Definition justThrough : ChainableHandler :=
  fun _ next => next None.

(** [() => new Response(body, { status })] *)
Definition respondWith (c : Response) : ChainableHandler :=
  fun _ _ => new_response c.

(** [(request, next) => { request.headers.append(k, v); return next() }],
    for any change [f] made to the instance received. *)
Definition mutateThenNext (f : Request -> Request) : ChainableHandler :=
  fun request next => let! _ := update_request request f in next None.

(** [(request, next) => { request.headers.append(k, v); return next(request) }] *)
Definition mutateThenForward (f : Request -> Request) : ChainableHandler :=
  fun request next => let! _ := update_request request f in next (Some request).

(** [() => { throw reason }] *)
Definition throwing (reason : string) : ChainableHandler :=
  fun _ _ => throw (Thrown reason).

(** A handler that awaits [next()] [n] times, one call after the other,
    and answers with a response of its own. *)
Fixpoint await_next (n : nat) (next : NextHandler) : M unit :=
  match n with
  | 0 => ret tt
  | S n' => let! _ := next None in await_next n' next
  end.

(** [(request) => ...]: a handler whose body [m] has no use of [next]. *)
Definition withoutNext (m : ReqRef -> M ResRef) : ChainableHandler :=
  fun request _ => m request.

(** [async (_, next) => { await next(); return next() }] *)
Definition nextTwice : ChainableHandler :=
  fun _ next => let! _ := next None in next None.

Definition callNextTimes (n : nat) (c : Response) : ChainableHandler :=
  fun _ next => let! _ := await_next n next in new_response c.

End Handlers.
Export Handlers.

(** ** Initial stores for the examples *)

Definition world0 : World :=
  {| requests := [request_of_url "http://localhost"];
     responses := [response_init None 400];
     arrays := 0; calls := [] |}.

Definition store0 : Chain.Store :=
  {| Chain.array_store := []; Chain.chain_store := [] |}.

Definition hello : Response := response_init (Some "hello") 200.

(** For the examples, a request with a body, and a content for a request
    whose body is used: nothing of the body is left to read. *)
Definition posted : Request :=
  {| req_method := "POST"; req_url := "http://localhost";
     req_headers := []; req_body := Some "payload" |}.

Definition world_post : World :=
  {| requests := [posted];
     responses := [response_init None 400];
     arrays := 0; calls := [] |}.

Definition drained (c : Request) : Request :=
  {| req_method := req_method c; req_url := req_url c;
     req_headers := req_headers c; req_body := None |}.

(** ** What the statements below observe *)

(** A computation that leaves the number of calls spy [k] has recorded. *)
Definition silent {A} (k : nat) (m : M A) : Prop :=
  forall w, spy_calls k (m w).2 = spy_calls k w.

(** A handler that records no call of spy [k] itself: whatever it adds comes
    from its calls of [next]. *)
Definition quiet (k : nat) (h : ChainableHandler) : Prop :=
  forall request next, (forall a, silent k (next a)) -> silent k (h request next).

Definition quiet_value (k : nat) (v : Value) : Prop :=
  match v with VFunction h => quiet k h | _ => True end.

(** A computation that drops no [Response] instance: those of the store it
    starts in are still there when it ends. *)
Definition grows {A} (m : M A) : Prop :=
  forall w, length (responses w) <= length (responses (m w).2).

Definition keeps_instances (h : ChainableHandler) : Prop :=
  forall request next, (forall a, grows (next a)) -> grows (h request next).

(** The store in which [run] calls its first handler: the rest array and
    the clone of the request (of content [cq]) exist. *)
Definition entered (w : World) (cq : Request) : World :=
  with_requests (requests w ++ [cq]) (with_arrays (S (arrays w)) w).

(** The store in which the next handler is called, when [next] was called in
    the store [w] for a request of content [cq], the response of [run]
    having the content [cr]: [next] has cloned both, and the [run] it calls
    has its rest array and its clone of the request. *)
Definition forwarded (w : World) (cq : Request) (cr : Response) : World :=
  {| requests := requests w ++ [cq; cq];
     responses := responses w ++ [cr];
     arrays := S (arrays w);
     calls := calls w |}.

(** The store in which [respond] calls [chain], for a request of content
    [cq] and a default response of content [cd], [w] being the store once
    [new Request(request)] has taken the body of the request given:
    [respond] has made its own [Request] and cloned it, and cloned the
    default response. *)
Definition responding (w : World) (cq : Request) (cd : Response) : World :=
  {| requests := requests w ++ [cq; cq];
     responses := responses w ++ [cd];
     arrays := arrays w;
     calls := calls w |}.

(** ** Further handlers of the README, and call chaining on the builder *)

Module Middleware.

(** What a handler reads of the instance it holds, as [request.url] or
    [request.headers.get(k)]. *)
Definition read_request (r : ReqRef) : M Request :=
  fun w =>
    match requests w !! r with
    | Some c => (Normal c, w)
    | None => (Abrupt TypeError, w)
    end.

(** A handler changing the [Response] instance [r] in place, for instance
    [response.headers.append(k, v)]. *)
Definition update_response (r : ResRef) (g : Response -> Response) : M unit :=
  fun w =>
    match responses w !! r with
    | Some c => (Normal tt, with_responses (<[r := g c]> (responses w)) w)
    | None => (Abrupt TypeError, w)
    end.

Definition append_response_header (k v : string) (r : Response) : Response :=
  {| res_status := res_status r;
     res_headers := headers_append k v (res_headers r);
     res_body := res_body r |}.

(** [(request) => new Response(...)], the response made from what the
    handler reads of its request; no use of [next]. *)
Definition respondFrom (g : Request -> Response) : ChainableHandler :=
  fun request _ => let! c := read_request request in new_response (g c).

(** The response proxy of the README:
    [async (_, next) => { const response = await next();
       response.headers.append(k, v); return response }],
    for any change [g] made to the instance [next] gave. *)
Definition transformResponse (g : Response -> Response) : ChainableHandler :=
  fun _ next =>
    let! response := next None in
    let! _ := update_response response g in
    ret response.

(** The kinds of middleware the README shows: the logger, which passes
    through; a handler changing its request and calling [next(request)]
    ([Forward]) or [next()] ([Keep]); the response proxy. *)
Inductive Layer :=
| Through
| Forward (f : Request -> Request)
| Keep (f : Request -> Request)
| Transform (g : Response -> Response).

Definition layer (l : Layer) : ChainableHandler :=
  match l with
  | Through => justThrough
  | Forward f => mutateThenForward f
  | Keep f => mutateThenNext f
  | Transform g => transformResponse g
  end.

(** What a stack of layers makes of the answer [F] of the handlers below
    it, [F cq cr] being their answer to a request of content [cq] with the
    response of content [cr] to fall back on. *)
Fixpoint through (ls : list Layer) (F : Request -> Response -> Response)
    (cq : Request) (cr : Response) : Response :=
  match ls with
  | [] => F cq cr
  | Through :: ls => through ls F cq cr
  | Forward f :: ls => through ls F (f cq) cr
  | Keep _ :: ls => through ls F cq cr
  | Transform g :: ls => g (through ls F cq cr)
  end.

(** [builder.next(...b1).next(...b2)...]: each call is made on what the
    call before returned. *)
Fixpoint next_all (this : Chain.ChainRef) (batches : list (list Value))
    (s : Chain.Store) : option (Chain.ChainRef * Chain.Store) :=
  match batches with
  | [] => Some (this, s)
  | b :: batches =>
      match Chain.next this b s with
      | Some (returned, s) => next_all returned batches s
      | None => None
      end
  end.

End Middleware.
Export Middleware.

(** The handlers [hs] answer by [F]: for a request of content [cq] and a
    response of content [cr], [chain] returns a response of content
    [F cq cr]. *)
Definition answers (hs : list Value)
    (F : Request -> Response -> Response) : Prop :=
  forall req resp w cq cr,
    requests w !! req = Some cq ->
    responses w !! resp = Some cr ->
    exists x w',
      chain req resp hs w = (Normal x, w') /\
      responses w' !! x = Some (F cq cr).

(** A computation that leaves the first [p] requests and the first [q]
    responses of the store as they are, and whose result satisfies [post]. *)
Definition frames {A} (p q : nat) (post : A -> Prop) (m : M A) : Prop :=
  forall w,
    p <= length (requests w) ->
    q <= length (responses w) ->
    take p (requests (m w).2) = take p (requests w) /\
    take q (responses (m w).2) = take q (responses w) /\
    forall a, (m w).1 = Normal a -> post a.

(** A handler that changes no instance but those it has from the engine or
    has made: no request older than the one it is called with, no response
    older than its call; [next] is any function that does the same and gives
    a response made after the handler was called. *)
Definition local (h : ChainableHandler) : Prop :=
  forall request next p q,
    p <= request ->
    (forall a, frames p q (fun x => q <= x) (next a)) ->
    frames p q (fun _ => True) (h request next).

Definition local_value (v : Value) : Prop :=
  match v with VFunction h => local h | _ => True end.

(** [cd] is the content of the default response of a call
    [respond(request, dflt)]: that of the instance given, or that of
    [new Response(null, { status: 404 })] when none is given. *)
Definition default_is (dflt : option ResRef) (w : World) (cd : Response)
    : Prop :=
  match dflt with
  | Some d => responses w !! d = Some cd
  | None => cd = response_init None 404
  end.

(** ** Sequencing and the store operations *)

Section Basics.

Context {A B : Type}.

Lemma bind_normal (m : M A) (k : A -> M B) w a w' :
  m w = (Normal a, w') -> bind m k w = k a w'.
Proof. intros H. unfold bind. by rewrite H. Qed.


Lemma bind_assoc {C} (m : M A) (f : A -> M B) (g : B -> M C) w :
  bind (bind m f) g w = bind m (fun a => bind (f a) g) w.
Proof. unfold bind. by destruct (m w) as [[a|e] w1]. Qed.

Lemma bind_cong (m m' : M A) (k : A -> M B) w w' :
  m w = m' w' -> bind m k w = bind m' k w'.
Proof. unfold bind. by intros ->. Qed.

Lemma bind_ext (m : M A) (k k' : A -> M B) w :
  (forall a w1, k a w1 = k' a w1) -> bind m k w = bind m k' w.
Proof. intros H. unfold bind. by destruct (m w) as [[a|e] w1]. Qed.

Lemma bind_normal_inv (m : M A) (k : A -> M B) w b w' :
  bind m k w = (Normal b, w') ->
  exists a w1, m w = (Normal a, w1) /\ k a w1 = (Normal b, w').
Proof.
  unfold bind. destruct (m w) as [[a|e] w1]; intros H; [eauto | discriminate].
Qed.

End Basics.

Lemma clone_response_ok r c w :
  responses w !! r = Some c ->
  clone_response r w =
    (Normal (length (responses w)), with_responses (responses w ++ [c]) w).
Proof. intros H. unfold clone_response. by rewrite H. Qed.

Lemma clone_request_ok r c w :
  requests w !! r = Some c ->
  clone_request r w =
    (Normal (length (requests w)), with_requests (requests w ++ [c]) w).
Proof. intros H. unfold clone_request. by rewrite H. Qed.

Lemma clone_response_inv r x w w' :
  clone_response r w = (Normal x, w') ->
  exists c, responses w !! r = Some c /\ x = length (responses w) /\
            w' = with_responses (responses w ++ [c]) w.
Proof.
  unfold clone_response, new_response.
  destruct (responses w !! r) as [c|]; intros H; [|discriminate].
  exists c. by inversion H.
Qed.

Lemma clone_request_inv r x w w' :
  clone_request r w = (Normal x, w') ->
  exists c, requests w !! r = Some c /\ x = length (requests w) /\
            w' = with_requests (requests w ++ [c]) w.
Proof.
  unfold clone_request, new_request.
  destruct (requests w !! r) as [c|]; intros H; [|discriminate].
  exists c. by inversion H.
Qed.

Lemma body_taken_length used r w :
  length (requests (Chain.body_taken used r w)) = length (requests w).
Proof.
  unfold Chain.body_taken. destruct (requests w !! r) as [c|]; [|done].
  destruct (req_body c); [|done]. simpl. apply length_insert.
Qed.

Lemma body_taken_rest used r w :
  responses (Chain.body_taken used r w) = responses w /\
  arrays (Chain.body_taken used r w) = arrays w /\
  calls (Chain.body_taken used r w) = calls w.
Proof.
  unfold Chain.body_taken. destruct (requests w !! r) as [c|]; [|done].
  by destruct (req_body c).
Qed.




Lemma request_from_ok used r c w :
  requests w !! r = Some c ->
  Chain.request_from used r w =
    (Normal (length (requests w)),
     with_requests (requests (Chain.body_taken used r w) ++ [c])
       (Chain.body_taken used r w)).
Proof.
  intros H. unfold Chain.request_from, new_request. rewrite H.
  by rewrite body_taken_length.
Qed.

Lemma lookup_new {X} (l : list X) (c : X) : (l ++ [c]) !! length l = Some c.
Proof. rewrite lookup_app_r by lia. by rewrite Nat.sub_diag. Qed.

Lemma lookup_old {X} (l : list X) (c d : X) i :
  l !! i = Some c -> (l ++ [d]) !! i = Some c.
Proof. intros H. by apply lookup_app_l_Some. Qed.

(** ** The guard of [run] *)

Lemma seen_has_empty a : seen_has ∅ a = false.
Proof. unfold seen_has. apply bool_decide_eq_false. set_solver. Qed.

Lemma run_nil req resp w :
  run ∅ [] req resp w = clone_response resp (with_arrays (S (arrays w)) w).
Proof. simpl. unfold bind, new_array. by rewrite seen_has_empty. Qed.

Lemma run_cons first rest req resp w :
  truthy first = true ->
  run ∅ (first :: rest) req resp w =
    (let! r := clone_request req in
     let! x := call first r (nextHandler (run ∅ rest) req resp) in
     clone_response x) (with_arrays (S (arrays w)) w).
Proof.
  intros Ht. simpl. unfold bind at 1. unfold new_array.
  by rewrite seen_has_empty, Ht.
Qed.


(** ** The builder *)

Section BuilderFacts.

Import Chain.

Lemma next_spec this hs s a old :
  handlers this s = Some a ->
  read a s = Some old ->
  let s' := {| array_store := array_store s ++ [hs; old ++ hs];
               chain_store := <[this := S (length (array_store s))]> (chain_store s) |} in
  next this hs s = Some (this, s').
Proof.
  unfold handlers, read, next, new_array_of. intros Hc Ha. rewrite Hc. simpl.
  rewrite (lookup_old _ _ _ _ Ha), lookup_new. simpl.
  rewrite length_app, <- app_assoc. simpl. by rewrite Nat.add_1_r.
Qed.

(** C9. [next] returns the builder it was called on, whose handlers are
    then the earlier ones followed by the arguments in their order, held in
    a new array: every array read before the call, the earlier [handlers]
    among them, still reads as it did.  From an empty builder,
    [next(a, b, c)] then [next(d)] gives the four handlers [a; b; c; d]. *)
Theorem next_appends_in_order :
  (forall this hs s a old,
     handlers this s = Some a ->
     read a s = Some old ->
     exists s' a',
       next this hs s = Some (this, s') /\
       handlers this s' = Some a' /\
       read a' s' = Some (old ++ hs) /\
       a' <> a /\
       read a s' = Some old /\
       (forall b l, read b s = Some l -> read b s' = Some l)) /\
  (forall a b c d s,
     let '(this, s0) := construct [] s in
     exists s1 s2 r,
       next this [a; b; c] s0 = Some (this, s1) /\
       next this [d] s1 = Some (this, s2) /\
       handlers this s2 = Some r /\
       read r s2 = Some [a; b; c; d] /\
       length [a; b; c; d] = 4).
Proof.
  assert (General : forall this hs s a old,
     handlers this s = Some a ->
     read a s = Some old ->
     exists s' a',
       next this hs s = Some (this, s') /\
       handlers this s' = Some a' /\
       read a' s' = Some (old ++ hs) /\
       a' <> a /\
       read a s' = Some old /\
       (forall b l, read b s = Some l -> read b s' = Some l)).
  { intros this hs s a old Hc Ha.
    eexists _, (S (length (array_store s))).
    split; [exact (next_spec this hs s a old Hc Ha)|].
    unfold handlers, read in *. simpl.
    pose proof (lookup_lt_Some _ _ _ Hc) as Hthis.
    pose proof (lookup_lt_Some _ _ _ Ha) as Hlt.
    repeat split.
    - by apply list_lookup_insert_eq.
    - rewrite lookup_app_r by lia.
      by replace (S (length (array_store s)) - length (array_store s)) with 1 by lia.
    - lia.
    - by apply lookup_app_l_Some.
    - intros b l Hb. by apply lookup_app_l_Some. }
  split; [exact General|].
  intros a b c d s.
  destruct (construct [] s) as [this s0] eqn:Hnew.
  unfold construct, new_array_of in Hnew. simpl in Hnew.
  inversion Hnew as [[Hthis Hs0]]. clear Hnew.
  assert (H0 : handlers this s0 = Some (S (length (array_store s)))).
  { subst. unfold handlers. simpl. rewrite lookup_new.
    f_equal. rewrite length_app. simpl. lia. }
  assert (R0 : read (S (length (array_store s))) s0 = Some []).
  { subst s0. unfold read. simpl. rewrite <- app_assoc. simpl.
    rewrite lookup_app_r by lia.
    by replace (S (length (array_store s)) - length (array_store s)) with 1 by lia. }
  destruct (General this [a; b; c] s0 _ _ H0 R0)
    as (s1 & a1 & N1 & H1 & R1 & _).
  destruct (General this [d] s1 _ _ H1 R1)
    as (s2 & a2 & N2 & H2 & R2 & _).
  exists s1, s2, a2. simpl in R2. subst this s0.
  repeat split; assumption.
Qed.

Lemma next_appends_in_order_witness :
  let s := (construct [VFunction justThrough] store0).2 in
  handlers 0 s = Some 1 /\
  read 1 s = Some [VFunction justThrough] /\
  exists s' a',
    next 0 [VFunction (respondWith hello)] s = Some (0, s') /\
    handlers 0 s' = Some a' /\
    read a' s' = Some ([VFunction justThrough] ++ [VFunction (respondWith hello)]) /\
    a' <> 1 /\
    read 1 s' = Some [VFunction justThrough] /\
    (forall b l, read b s = Some l -> read b s' = Some l).
Proof.
  intros s. split; [reflexivity|]. split; [reflexivity|].
  exact (proj1 next_appends_in_order 0 [VFunction (respondWith hello)] s 1
           [VFunction justThrough] eq_refl eq_refl).
Defined.

(** C4. [respond(request)] on a builder with no handlers, the second
    argument omitted: the call returns a response of status 404 with no
    body.  It creates three instances, the default
    [new Response(null, { status: 404 })], the clone of it given to [chain]
    and the clone [chain] returns; the one returned is the third, not the
    default. *)
Theorem respond_default_not_found used this s a request c w :
  handlers this s = Some a ->
  read a s = Some [] ->
  requests w !! request = Some c ->
  let d := response_init None 404 in
  let dflt := length (responses w) in
  exists m r w',
    respond used this s request None = Some m /\
    m w = (Normal r, w') /\
    responses w' = responses w ++ [d; d; d] /\
    responses w' !! dflt = Some d /\
    responses w' !! r = Some d /\
    res_status d = 404%Z /\ res_body d = None /\
    r <> dflt.
Proof.
  intros Hh Hr Hc d dflt.
  destruct (body_taken_rest used request w) as (Eres & _).
  remember (body_taken used request w) as w0 eqn:Ew0.
  unfold respond. rewrite Hh, Hr.
  eexists _, _, _.
  split; [reflexivity|].
  unfold bind, request_from. rewrite Hc, <- Ew0. clear Ew0. simpl.
  unfold clone_request. simpl. rewrite lookup_new. simpl.
  unfold clone_response at 1. simpl. rewrite lookup_new. simpl.
  unfold chain. rewrite run_nil.
  unfold clone_response. simpl. rewrite lookup_new. simpl.
  split; [reflexivity|]. simpl. fold d. rewrite Eres.
  rewrite <- !app_assoc. simpl.
  subst dflt. rewrite length_app. simpl.
  repeat split.
  - rewrite lookup_app_r by lia. by rewrite Nat.sub_diag.
  - rewrite lookup_app_r by lia.
    by replace (length (responses w) + 2 - length (responses w)) with 2 by lia.
  - lia.
Qed.

Lemma respond_default_not_found_witness :
  let s := (construct [] store0).2 in
  let d := response_init None 404 in
  handlers 0 s = Some 1 /\
  read 1 s = Some [] /\
  requests world0 !! 0 = Some (request_of_url "http://localhost") /\
  exists m r w',
    respond drained 0 s 0 None = Some m /\
    m world0 = (Normal r, w') /\
    responses w' = responses world0 ++ [d; d; d] /\
    responses w' !! length (responses world0) = Some d /\
    responses w' !! r = Some d /\
    res_status d = 404%Z /\ res_body d = None /\
    r <> length (responses world0).
Proof.
  intros s d. split; [reflexivity|]. split; [reflexivity|]. split; [reflexivity|].
  exact (respond_default_not_found drained 0 s 1 0 _ world0
           eq_refl eq_refl eq_refl).
Defined.

End BuilderFacts.

(** ** The engine *)

Section EngineFacts.

Local Arguments run : simpl never.

Lemma run_enter first rest req resp w cq :
  truthy first = true ->
  requests w !! req = Some cq ->
  run ∅ (first :: rest) req resp w =
    (let! x := call first (length (requests w))
                 (nextHandler (run ∅ rest) req resp) in
     clone_response x) (entered w cq).
Proof.
  intros Ht Hq. rewrite run_cons by done.
  unfold bind at 1. by rewrite (clone_request_ok req cq).
Qed.

Lemma next_enter first rest req resp arg w cq cr :
  truthy first = true ->
  requests w !! default req arg = Some cq ->
  responses w !! resp = Some cr ->
  nextHandler (run ∅ (first :: rest)) req resp arg w =
    (let! x := call first (S (length (requests w)))
                 (nextHandler (run ∅ rest) (length (requests w))
                    (length (responses w))) in
     let! y := clone_response x in
     clone_response y) (forwarded w cq cr).
Proof.
  intros Ht Hq Hr. unfold nextHandler at 1.
  rewrite (bind_normal _ _ _ _ _ (clone_request_ok _ cq _ Hq)).
  rewrite (bind_normal _ _ _ _ _
             (clone_response_ok resp cr (with_requests (requests w ++ [cq]) w) Hr)).
  erewrite bind_cong; [|apply (run_enter _ _ _ _ _ cq Ht); apply lookup_new].
  rewrite bind_assoc. simpl.
  replace (entered _ cq) with (forwarded w cq cr).
  - by rewrite length_app, Nat.add_1_r.
  - unfold entered, forwarded, with_requests, with_responses, with_arrays.
    simpl. by rewrite <- app_assoc.
Qed.

(** *** Counting the calls of a spy *)

Lemma silent_ret {A} k (a : A) : silent k (ret a).
Proof. by intros w. Qed.

Lemma silent_throw {A} k e : silent k (@throw A e).
Proof. by intros w. Qed.

Lemma silent_bind {A B} k (m : M A) (f : A -> M B) :
  silent k m -> (forall a, silent k (f a)) -> silent k (bind m f).
Proof.
  intros Hm Hf w. unfold bind. specialize (Hm w).
  destruct (m w) as [[a|e] w1]; simpl in *; [|done].
  by rewrite Hf.
Qed.

Lemma silent_new_array k : silent k new_array.
Proof. by intros w. Qed.

Lemma silent_new_response k c : silent k (new_response c).
Proof. by intros w. Qed.

Lemma silent_clone_request k r : silent k (clone_request r).
Proof. intros w. unfold clone_request. by destruct (requests w !! r). Qed.

Lemma silent_clone_response k r : silent k (clone_response r).
Proof. intros w. unfold clone_response. by destruct (responses w !! r). Qed.

Lemma silent_nextHandler k f req resp :
  (forall r s, silent k (f r s)) ->
  forall a, silent k (nextHandler f req resp a).
Proof.
  intros Hf a. unfold nextHandler.
  apply silent_bind; [apply silent_clone_request|]. intros r.
  apply silent_bind; [apply silent_clone_response|]. intros s.
  apply silent_bind; [apply Hf|]. intros x. apply silent_clone_response.
Qed.

Lemma silent_call k v r next :
  quiet_value k v -> (forall a, silent k (next a)) -> silent k (call v r next).
Proof.
  destruct v; simpl; intros Hv Hn; try apply silent_throw. by apply Hv.
Qed.

Lemma silent_run k seen hs :
  Forall (quiet_value k) hs ->
  forall req resp, silent k (run seen hs req resp).
Proof.
  induction 1 as [|v hs Hv Hhs IH]; intros req resp; simpl;
    (apply silent_bind; [apply silent_new_array|]); intros a;
    destruct (seen_has seen a); try apply silent_clone_response.
  destruct (truthy v); simpl; [|apply silent_clone_response].
  apply silent_bind; [apply silent_clone_request|]. intros r.
  apply silent_bind; [|intros x; apply silent_clone_response].
  apply silent_call; [done|]. by apply silent_nextHandler.
Qed.

Lemma spy_calls_record k w :
  spy_calls k (with_calls (calls w ++ [k]) w) = S (spy_calls k w).
Proof.
  unfold spy_calls. simpl. rewrite filter_app, length_app.
  rewrite filter_cons_True by done. simpl. lia.
Qed.

Lemma spy_counts_one k g r next w :
  quiet k g -> (forall a, silent k (next a)) ->
  spy_calls k (spy k g r next w).2 = S (spy_calls k w).
Proof.
  intros Hg Hn. unfold spy, bind, record_call.
  rewrite (Hg r next Hn). apply spy_calls_record.
Qed.

(** C6. In [chain(request, response, (_, next) => next(), h1)] with a
    spied [h1] that returns the response [x]: the call returns a new
    instance with the content [x] had when [h1] returned it, and the spy
    has recorded one call more than before. *)
Theorem delegation_calls_once g k req resp w cq cr x wx cx :
  quiet k g ->
  requests w !! req = Some cq ->
  responses w !! resp = Some cr ->
  spy k g (length (requests w) + 2)
    (nextHandler (run ∅ []) (length (requests w) + 1) (length (responses w)))
    (forwarded (entered w cq) cq cr) = (Normal x, wx) ->
  responses wx !! x = Some cx ->
  exists r w',
    chain req resp [VFunction justThrough; VFunction (spy k g)] w
      = (Normal r, w') /\
    responses w' !! r = Some cx /\
    r <> x /\
    spy_calls k w' = spy_calls k w + 1.
Proof.
  intros Hg Hq Hr Hcall Hx.
  unfold chain. rewrite (run_enter _ _ _ _ _ cq) by done.
  simpl call. unfold justThrough.
  erewrite bind_cong;
    [|apply (next_enter _ _ _ _ _ _ cq cr); [done|by apply lookup_old|done]].
  rewrite bind_assoc. simpl call.
  rewrite length_app. simpl length.
  replace (S (length (requests w) + 1)) with (length (requests w) + 2) by lia.
  rewrite (bind_normal _ _ _ _ _ Hcall).
  unfold bind, clone_response, new_response. rewrite Hx. simpl.
  rewrite lookup_new. simpl. rewrite lookup_new. simpl.
  eexists _, _. split; [reflexivity|]. simpl.
  split; [apply lookup_new|].
  split; [apply lookup_lt_Some in Hx; rewrite !length_app; simpl; lia|].
  change (spy_calls k wx = spy_calls k w + 1).
  replace wx with
    (spy k g (length (requests w) + 2)
       (nextHandler (run ∅ []) (length (requests w) + 1) (length (responses w)))
       (forwarded (entered w cq) cq cr)).2 by (by rewrite Hcall).
  rewrite spy_counts_one; [| done |].
  - unfold spy_calls. simpl. lia.
  - apply silent_nextHandler. intros r s. by apply silent_run.
Qed.

Lemma delegation_calls_once_witness :
  exists r w',
    chain 0 0 [VFunction justThrough; VFunction (spy 7 (respondWith hello))] world0
      = (Normal r, w') /\
    responses w' !! r = Some hello /\
    r <> 2 /\
    spy_calls 7 w' = spy_calls 7 world0 + 1.
Proof.
  assert (Q : quiet 7 (respondWith hello)).
  { intros r next _. apply silent_new_response. }
  exact (delegation_calls_once (respondWith hello) 7 0 0 world0
           (request_of_url "http://localhost") (response_init None 400)
           2 _ hello Q eq_refl eq_refl eq_refl eq_refl).
Defined.

Lemma update_entered w cq f :
  update_request (length (requests w)) f (entered w cq)
    = (Normal tt, entered w (f cq)).
Proof.
  unfold update_request, entered. simpl. rewrite lookup_new.
  unfold with_requests. simpl.
  rewrite insert_app_r_alt by lia. by rewrite Nat.sub_diag.
Qed.

(** What [run] does with the response of the second of two handlers: its
    own clone, the clone [next] makes, and the clone the first [run] makes
    of what a first handler handing it on returns. *)
Lemma two_handlers_forward h1 req resp arg we cq cr :
  requests we !! default req arg = Some cq ->
  responses we !! resp = Some cr ->
  bind (nextHandler (run ∅ [VFunction h1]) req resp arg) clone_response we =
    (let! x := h1 (S (length (requests we)))
                 (nextHandler (run ∅ []) (length (requests we))
                    (length (responses we))) in
     let! y := clone_response x in
     let! z := clone_response y in
     clone_response z) (forwarded we cq cr).
Proof.
  intros Hq Hr.
  erewrite bind_cong; [|by apply (next_enter _ _ _ _ _ _ cq cr)].
  rewrite bind_assoc. simpl call. apply bind_ext. intros a w1.
  by rewrite bind_assoc.
Qed.

(** C5. Two handlers, the first changing by [f] the request instance it
    received (the instance [r0]).  When it then calls [next()], the second
    handler is called with an instance [r2] whose content is that of the
    request given to [chain], without the change.  When it calls
    [next(request)] with the changed instance, the second handler is called
    with an instance [r2] of the changed content, another instance than
    [r0].  In both cases the result of the second handler is cloned three
    times on its way out. *)
Theorem request_forwarding f h1 req resp w cq cr :
  requests w !! req = Some cq ->
  responses w !! resp = Some cr ->
  let r0 := length (requests w) in
  let r2 := length (requests w) + 2 in
  let next1 :=
    nextHandler (run ∅ []) (length (requests w) + 1) (length (responses w)) in
  let finish := fun x =>
    let! y := clone_response x in
    let! z := clone_response y in
    clone_response z in
  let unchanged := forwarded (entered w (f cq)) cq cr in
  let changed := forwarded (entered w (f cq)) (f cq) cr in
  (chain req resp [VFunction (mutateThenNext f); VFunction h1] w
     = (let! x := h1 r2 next1 in finish x) unchanged /\
   requests unchanged !! r0 = Some (f cq) /\
   requests unchanged !! r2 = Some cq /\
   r2 <> r0) /\
  (chain req resp [VFunction (mutateThenForward f); VFunction h1] w
     = (let! x := h1 r2 next1 in finish x) changed /\
   requests changed !! r0 = Some (f cq) /\
   requests changed !! r2 = Some (f cq) /\
   r2 <> r0).
Proof.
  intros Hq Hr r0 r2 next1 finish unchanged changed.
  assert (L : forall c, length (requests (entered w c)) = length (requests w) + 1).
  { intros c. unfold entered. simpl. by rewrite length_app. }
  assert (Look : forall c,
    requests (forwarded (entered w (f cq)) c cr) !! r0 = Some (f cq) /\
    requests (forwarded (entered w (f cq)) c cr) !! r2 = Some c /\
    r2 <> r0).
  { intros c. subst r0 r2. simpl. rewrite <- app_assoc. simpl.
    repeat split; [| |lia].
    - rewrite lookup_app_r by lia. by rewrite Nat.sub_diag.
    - rewrite lookup_app_r by lia.
      by replace (length (requests w) + 2 - length (requests w)) with 2 by lia. }
  split; (split; [|apply Look]).
  - unfold chain. rewrite (run_enter _ _ _ _ _ cq) by done.
    simpl call. unfold mutateThenNext. rewrite bind_assoc.
    rewrite (bind_normal _ _ _ _ _ (update_entered w cq f)).
    rewrite (two_handlers_forward _ _ _ _ _ cq cr);
      [|by apply lookup_old|done].
    rewrite L. subst r2 next1.
    by replace (S (length (requests w) + 1)) with (length (requests w) + 2) by lia.
  - unfold chain. rewrite (run_enter _ _ _ _ _ cq) by done.
    simpl call. unfold mutateThenForward. rewrite bind_assoc.
    rewrite (bind_normal _ _ _ _ _ (update_entered w cq f)).
    rewrite (two_handlers_forward _ _ _ _ _ (f cq) cr);
      [|apply lookup_new|done].
    rewrite L. subst r2 next1.
    by replace (S (length (requests w) + 1)) with (length (requests w) + 2) by lia.
Qed.

(** *** Instances are never dropped *)

Lemma grows_bind {A B} (m : M A) (f : A -> M B) :
  grows m -> (forall a, grows (f a)) -> grows (bind m f).
Proof.
  intros Hm Hf w. unfold bind. specialize (Hm w).
  destruct (m w) as [[a|e] w1]; simpl in *; [|done].
  specialize (Hf a w1). lia.
Qed.

Lemma grows_new_array : grows new_array.
Proof. by intros w. Qed.

Lemma grows_clone_request r : grows (clone_request r).
Proof. intros w. unfold clone_request. by destruct (requests w !! r). Qed.

Lemma grows_clone_response r : grows (clone_response r).
Proof.
  intros w. unfold clone_response.
  destruct (responses w !! r); simpl; [|done]. rewrite length_app. lia.
Qed.

Lemma grows_nextHandler f req resp :
  (forall r s, grows (f r s)) -> forall a, grows (nextHandler f req resp a).
Proof.
  intros Hf a. unfold nextHandler.
  apply grows_bind; [apply grows_clone_request|]. intros r.
  apply grows_bind; [apply grows_clone_response|]. intros s.
  apply grows_bind; [apply Hf|]. intros x. apply grows_clone_response.
Qed.

Lemma grows_run seen hs :
  Forall keeps_instances hs ->
  forall req resp, grows (run seen (VFunction <$> hs) req resp).
Proof.
  induction 1 as [|h hs Hh Hhs IH]; intros req resp; simpl;
    (apply grows_bind; [apply grows_new_array|]); intros a;
    destruct (seen_has seen a); try apply grows_clone_response.
  apply grows_bind; [apply grows_clone_request|]. intros r.
  apply grows_bind; [|intros x; apply grows_clone_response].
  apply Hh. by apply grows_nextHandler.
Qed.

Lemma respond_enters used this s a hs req d w cq cd :
  Chain.handlers this s = Some a ->
  Chain.read a s = Some hs ->
  requests w !! req = Some cq ->
  responses w !! d = Some cd ->
  exists m,
    Chain.respond used this s req (Some d) = Some m /\
    m w = chain (length (requests w) + 1) (length (responses w)) hs
            (responding (Chain.body_taken used req w) cq cd).
Proof.
  intros Hh Hr Hq Hd.
  pose proof (body_taken_length used req w) as L.
  destruct (body_taken_rest used req w) as (E & _).
  unfold Chain.respond. rewrite Hh, Hr.
  eexists. split; [reflexivity|].
  unfold bind, Chain.request_from, ret. rewrite Hq.
  rewrite <- E in Hd. rewrite <- L, <- E.
  remember (Chain.body_taken used req w) as w0 eqn:Ew0. clear Ew0.
  simpl.
  unfold clone_request. simpl. rewrite lookup_new. simpl.
  unfold clone_response. simpl. rewrite Hd. simpl.
  rewrite length_app. simpl.
  unfold responding, with_requests, with_responses. simpl.
  by rewrite <- app_assoc.
Qed.

Lemma respond_enters_default used this s a hs req w cq :
  Chain.handlers this s = Some a ->
  Chain.read a s = Some hs ->
  requests w !! req = Some cq ->
  exists m,
    Chain.respond used this s req None = Some m /\
    m w = chain (length (requests w) + 1) (length (responses w) + 1) hs
            (with_responses
               (responses (Chain.body_taken used req w)
                  ++ [response_init None 404; response_init None 404])
               (with_requests
                  (requests (Chain.body_taken used req w) ++ [cq; cq])
                  (Chain.body_taken used req w))).
Proof.
  intros Hh Hr Hq.
  pose proof (body_taken_length used req w) as L.
  destruct (body_taken_rest used req w) as (E & _).
  unfold Chain.respond. rewrite Hh, Hr.
  eexists. split; [reflexivity|].
  unfold bind, Chain.request_from. rewrite Hq.
  rewrite <- L, <- E.
  remember (Chain.body_taken used req w) as w0 eqn:Ew0. clear Ew0.
  simpl.
  unfold clone_request. simpl. rewrite lookup_new. simpl.
  unfold clone_response. simpl. rewrite lookup_new. simpl.
  rewrite !length_app. simpl.
  unfold with_requests, with_responses. simpl.
  by rewrite <- !app_assoc.
Qed.

(** [respond] is a call of [chain], on a clone [r1] of the request it made
    and a clone [s1] of the default response, in a store [w3] that has every
    response of the store [respond] was called in. *)
Lemma respond_calls_chain used this s a hs req dflt w cq cd :
  Chain.handlers this s = Some a ->
  Chain.read a s = Some hs ->
  requests w !! req = Some cq ->
  default_is dflt w cd ->
  exists m r1 s1 w3,
    Chain.respond used this s req dflt = Some m /\
    m w = chain r1 s1 hs w3 /\
    requests w3 !! r1 = Some cq /\
    responses w3 !! s1 = Some cd /\
    length (responses w) <= s1 /\
    (forall i c, responses w !! i = Some c -> responses w3 !! i = Some c).
Proof.
  intros Hh Hr Hq Hd.
  pose proof (body_taken_length used req w) as L.
  destruct (body_taken_rest used req w) as (E & _).
  destruct dflt as [d|]; simpl in Hd.
  - destruct (respond_enters used this s a hs req d w cq cd Hh Hr Hq Hd)
      as (m & Hm & Hrun).
    exists m, (length (requests w) + 1), (length (responses w)),
      (responding (Chain.body_taken used req w) cq cd).
    repeat split; try done.
    + simpl. rewrite lookup_app_r by lia. rewrite L.
      by replace (length (requests w) + 1 - length (requests w)) with 1 by lia.
    + simpl. rewrite E. apply lookup_new.
    + intros i c Hi. simpl. rewrite E. by apply lookup_app_l_Some.
  - subst cd.
    destruct (respond_enters_default used this s a hs req w cq Hh Hr Hq)
      as (m & Hm & Hrun).
    eexists m, (length (requests w) + 1), (length (responses w) + 1), _.
    split; [exact Hm|]. split; [exact Hrun|]. simpl.
    repeat split.
    + rewrite lookup_app_r by lia. rewrite L.
      by replace (length (requests w) + 1 - length (requests w)) with 1 by lia.
    + rewrite E. rewrite lookup_app_r by lia.
      by replace (length (responses w) + 1 - length (responses w)) with 1 by lia.
    + lia.
    + intros i c Hi. rewrite E. by apply lookup_app_l_Some.
Qed.

(** C3. Whatever the handlers (none, or any number that drop no
    instance), when [chain] returns the response [r]: [r] was made by a
    last [clone], of the response [src] and in the store [w1], so that it
    has the content of [src] and is none of the instances of [w1]; the
    instances that existed when [chain] was called, the [response] given
    among them, are instances of [w1].  With no handler [src] is the
    response given; otherwise [src] is what the first handler returned and
    [w1] the store it left, which holds every response a handler has
    returned by then.  The same for [respond]: what it returns is not the
    [defaultResponse] it was given.  With no handler [chain] does return,
    a new instance with the content of the response given.  And [respond],
    with a default response given or not: it is a call of [chain] on a clone
    [s1] of the default response, so that what it returns is made by a last
    [clone] in the same way, of [s1] with no handler and of what the first
    handler returned otherwise, and is none of the instances there were,
    the default response among them; with no handler it does return, a
    response with the content of the default response. *)
Theorem result_is_fresh_duplicate :
  (forall hs req resp w r w',
     Forall keeps_instances hs ->
     resp < length (responses w) ->
     chain req resp (VFunction <$> hs) w = (Normal r, w') ->
     r <> resp /\
     exists src w1 c,
       responses w1 !! src = Some c /\
       responses w' !! r = Some c /\
       w' = with_responses (responses w1 ++ [c]) w1 /\
       r <> src /\
       (forall y, y < length (responses w1) -> r <> y) /\
       length (responses w) <= length (responses w1) /\
       match hs with
       | [] => src = resp /\ w1 = with_arrays (S (arrays w)) w
       | h :: rest =>
           exists cq,
             requests w !! req = Some cq /\
             h (length (requests w))
               (nextHandler (run ∅ (VFunction <$> rest)) req resp)
               (entered w cq) = (Normal src, w1)
       end) /\
  (forall used hs this s a req d w m r w',
     Forall keeps_instances hs ->
     Chain.handlers this s = Some a ->
     Chain.read a s = Some (VFunction <$> hs) ->
     d < length (responses w) ->
     Chain.respond used this s req (Some d) = Some m ->
     m w = (Normal r, w') ->
     r <> d) /\
  (forall req resp w c,
     responses w !! resp = Some c ->
     exists r w',
       chain req resp [] w = (Normal r, w') /\
       r <> resp /\
       responses w' !! r = Some c) /\
  (forall used hs this s a req dflt w cq cd,
     Forall keeps_instances hs ->
     Chain.handlers this s = Some a ->
     Chain.read a s = Some (VFunction <$> hs) ->
     requests w !! req = Some cq ->
     default_is dflt w cd ->
     exists m r1 s1 w3,
       Chain.respond used this s req dflt = Some m /\
       m w = chain r1 s1 (VFunction <$> hs) w3 /\
       requests w3 !! r1 = Some cq /\
       responses w3 !! s1 = Some cd /\
       (forall d, dflt = Some d -> s1 <> d) /\
       (forall i c, responses w !! i = Some c -> responses w3 !! i = Some c) /\
       (hs = [] ->
        exists r w', m w = (Normal r, w') /\ responses w' !! r = Some cd) /\
       forall r w',
         m w = (Normal r, w') ->
         (forall d, dflt = Some d -> r <> d) /\
         (forall y c, responses w !! y = Some c -> r <> y) /\
         r <> s1 /\
         exists src w1 c,
           responses w1 !! src = Some c /\
           responses w' !! r = Some c /\
           w' = with_responses (responses w1 ++ [c]) w1 /\
           r <> src /\
           (forall y, y < length (responses w1) -> r <> y) /\
           length (responses w3) <= length (responses w1) /\
           match hs with
           | [] => src = s1 /\ w1 = with_arrays (S (arrays w3)) w3
           | h :: rest =>
               exists cq',
                 requests w3 !! r1 = Some cq' /\
                 h (length (requests w3))
                   (nextHandler (run ∅ (VFunction <$> rest)) r1 s1)
                   (entered w3 cq') = (Normal src, w1)
           end).
Proof.
  assert (Engine : forall hs req resp w r w',
     Forall keeps_instances hs ->
     chain req resp (VFunction <$> hs) w = (Normal r, w') ->
     exists src w1 c,
       responses w1 !! src = Some c /\
       r = length (responses w1) /\
       w' = with_responses (responses w1 ++ [c]) w1 /\
       length (responses w) <= length (responses w1) /\
       match hs with
       | [] => src = resp /\ w1 = with_arrays (S (arrays w)) w
       | h :: rest =>
           exists cq,
             requests w !! req = Some cq /\
             h (length (requests w))
               (nextHandler (run ∅ (VFunction <$> rest)) req resp)
               (entered w cq) = (Normal src, w1)
       end).
  { intros hs req resp w r w' Hhs Hrun. unfold chain in Hrun.
    destruct hs as [|h rest]; simpl fmap in Hrun.
    - rewrite run_nil in Hrun.
      apply clone_response_inv in Hrun as (c & Hc & -> & ->).
      exists resp, (with_arrays (S (arrays w)) w), c. by repeat split.
    - rewrite run_cons in Hrun by done.
      apply bind_normal_inv in Hrun as (r0 & w0 & Hq & Hrun).
      apply clone_request_inv in Hq as (cq & Hq & -> & ->).
      apply bind_normal_inv in Hrun as (src & w1 & Hh & Hrun).
      apply clone_response_inv in Hrun as (c & Hc & -> & ->).
      assert (Hh' : h (length (requests w))
               (nextHandler (run ∅ (VFunction <$> rest)) req resp)
               (entered w cq) = (Normal src, w1)) by exact Hh.
      clear Hh. rename Hh' into Hh.
      exists src, w1, c. repeat split; try done.
      + inversion Hhs as [|? ? Hk Hrest]; subst.
        pose proof (Hk (length (requests w))
          (nextHandler (run ∅ (VFunction <$> rest)) req resp)
          (grows_nextHandler _ req resp (grows_run ∅ rest Hrest))
          (entered w cq)) as G.
        by rewrite Hh in G.
      + by exists cq. }
  split; [|split; [|split]].
  - intros hs req resp w r w' Hhs Hresp Hrun.
    destruct (Engine _ _ _ _ _ _ Hhs Hrun)
      as (src & w1 & c & Hc & -> & -> & Hle & Hshape).
    split; [lia|]. exists src, w1, c.
    pose proof (lookup_lt_Some _ _ _ Hc).
    repeat split; try done; try lia. apply lookup_new.
  - intros used hs this s a req d w m r w' Hhs Hh Hr Hd Hm Hrun.
    destruct (body_taken_rest used req w) as (E & _).
    unfold Chain.respond in Hm. rewrite Hh, Hr in Hm.
    inversion Hm as [Hm']. subst m. clear Hm.
    apply bind_normal_inv in Hrun as (nr & w1 & Hnr & Hrun).
    unfold Chain.request_from in Hnr.
    destruct (requests w !! req) as [c|] eqn:Hc; [|discriminate].
    inversion Hnr; subst nr w1. clear Hnr.
    apply bind_normal_inv in Hrun as (d' & w2 & Hd' & Hrun).
    inversion Hd'; subst d' w2. clear Hd'.
    apply bind_normal_inv in Hrun as (r1 & w3 & Hr1 & Hrun).
    apply clone_request_inv in Hr1 as (c1 & _ & -> & ->).
    apply bind_normal_inv in Hrun as (s1 & w4 & Hs1 & Hrun).
    apply clone_response_inv in Hs1 as (c2 & _ & -> & ->).
    destruct (Engine _ _ _ _ _ _ Hhs Hrun)
      as (src & w1 & c3 & _ & -> & _ & Hle & _).
    simpl in Hle. rewrite length_app, E in Hle. simpl in Hle. lia.
  - intros req resp w c Hc. unfold chain. rewrite run_nil.
    rewrite (clone_response_ok resp c (with_arrays (S (arrays w)) w) Hc).
    eexists _, _. split; [reflexivity|]. simpl.
    split; [apply lookup_lt_Some in Hc; lia|apply lookup_new].
  - intros used hs this s a req dflt w cq cd Hhs Hh Hr Hq Hd.
    destruct (respond_calls_chain used this s a _ req dflt w cq cd Hh Hr Hq Hd)
      as (m & r1 & s1 & w3 & Hm & Hrun & Hr1 & Hs1 & Hle & Hkeep).
    assert (Hdef : forall d, dflt = Some d -> d < length (responses w)).
    { intros d ->. simpl in Hd. by apply lookup_lt_Some in Hd. }
    exists m, r1, s1, w3.
    split; [exact Hm|]. split; [exact Hrun|].
    split; [exact Hr1|]. split; [exact Hs1|].
    split; [intros d Hdd; specialize (Hdef d Hdd); lia|].
    split; [exact Hkeep|]. split.
    + intros ->. rewrite Hrun. unfold chain. simpl fmap. rewrite run_nil.
      rewrite (clone_response_ok s1 cd (with_arrays (S (arrays w3)) w3) Hs1).
      eexists _, _. split; [reflexivity|]. apply lookup_new.
    + intros r w' Hret. rewrite Hrun in Hret.
      destruct (Engine _ _ _ _ _ _ Hhs Hret)
        as (src & w1 & c & Hc & -> & -> & Hle1 & Hshape).
      pose proof (lookup_lt_Some _ _ _ Hs1) as Hs1lt.
      pose proof (lookup_lt_Some _ _ _ Hc) as Hclt.
      split; [intros d Hdd; specialize (Hdef d Hdd); lia|].
      split; [intros y c0 Hy; apply lookup_lt_Some in Hy; lia|].
      split; [lia|].
      exists src, w1, c. repeat split; try done; try lia. apply lookup_new.
Qed.

(** *** Calling [next] several times *)

Lemma next_counts_one k g rest req resp w u w' :
  quiet k g ->
  Forall (quiet_value k) rest ->
  nextHandler (run ∅ (VFunction (spy k g) :: rest)) req resp None w
    = (Normal u, w') ->
  spy_calls k w' = S (spy_calls k w).
Proof.
  intros Hg Hrest H. unfold nextHandler in H.
  apply bind_normal_inv in H as (r1 & w1 & Hr1 & H).
  apply clone_request_inv in Hr1 as (c1 & _ & -> & ->).
  apply bind_normal_inv in H as (s1 & w2 & Hs1 & H).
  apply clone_response_inv in Hs1 as (c2 & _ & -> & ->).
  apply bind_normal_inv in H as (x & w3 & Hrun & H).
  apply clone_response_inv in H as (c3 & _ & -> & ->).
  rewrite run_cons in Hrun by done.
  apply bind_normal_inv in Hrun as (r2 & w4 & Hr2 & Hrun).
  apply clone_request_inv in Hr2 as (c4 & _ & -> & ->).
  apply bind_normal_inv in Hrun as (y & w5 & Hcall & Hrun).
  apply clone_response_inv in Hrun as (c5 & _ & -> & ->).
  simpl call in Hcall.
  match type of Hcall with
  | spy k g ?r ?n ?w0 = _ =>
      pose proof (spy_counts_one k g r n w0 Hg) as One
  end.
  rewrite Hcall in One. simpl in One.
  change (spy_calls k w5 = S (spy_calls k w)). apply One.
  apply silent_nextHandler. intros r s. by apply silent_run.
Qed.

Lemma await_next_counts k n (next : NextHandler) :
  (forall w u w', next None w = (Normal u, w') ->
                  spy_calls k w' = S (spy_calls k w)) ->
  forall w w', await_next n next w = (Normal tt, w') ->
               spy_calls k w' = spy_calls k w + n.
Proof.
  intros Hnext. induction n as [|n IH]; intros w w' H; simpl in H.
  - inversion H. lia.
  - apply bind_normal_inv in H as (u & w1 & Hu & H).
    rewrite (IH _ _ H), (Hnext _ _ _ Hu). lia.
Qed.

Lemma next_terminal_returns k c1 req resp w cq cr :
  requests w !! req = Some cq ->
  responses w !! resp = Some cr ->
  exists u w',
    nextHandler (run ∅ [VFunction (spy k (respondWith c1))]) req resp None w
      = (Normal u, w') /\
    requests w' !! req = Some cq /\
    responses w' !! resp = Some cr.
Proof.
  intros Hq Hr. rewrite (next_enter _ _ _ _ _ _ cq cr) by done.
  simpl call. unfold spy, respondWith, bind, record_call, new_response,
    clone_response. simpl.
  rewrite lookup_new. simpl. rewrite lookup_new. simpl.
  eexists _, _. split; [reflexivity|]. simpl.
  split; by repeat apply lookup_app_l_Some.
Qed.

Lemma await_next_returns k c1 req resp cq cr n :
  forall w,
    requests w !! req = Some cq ->
    responses w !! resp = Some cr ->
    exists w',
      await_next n
        (nextHandler (run ∅ [VFunction (spy k (respondWith c1))]) req resp) w
        = (Normal tt, w').
Proof.
  induction n as [|n IH]; intros w Hq Hr; simpl.
  - by eexists.
  - destruct (next_terminal_returns k c1 req resp w cq cr Hq Hr)
      as (u & w1 & Hn & Hq1 & Hr1).
    destruct (IH w1 Hq1 Hr1) as (w' & H).
    exists w'. by rewrite (bind_normal _ _ _ _ _ Hn).
Qed.

(** C10. A handler that awaits [next()] [n] times, followed by a spied
    handler and any handlers that make no record for that spy: when
    [chain] returns, the spy has recorded [n] calls more than before, one
    for each call of [next].  With a spied last handler that answers with
    a response of its own, [chain] does return, for every [n]. *)
Theorem each_next_call_runs_tail :
  (forall n c g k rest req resp w r w',
     quiet k g ->
     Forall (quiet_value k) rest ->
     chain req resp
       (VFunction (callNextTimes n c) :: VFunction (spy k g) :: rest) w
       = (Normal r, w') ->
     spy_calls k w' = spy_calls k w + n) /\
  (forall n c c1 k req resp w cq cr,
     requests w !! req = Some cq ->
     responses w !! resp = Some cr ->
     exists r w',
       chain req resp
         [VFunction (callNextTimes n c); VFunction (spy k (respondWith c1))] w
         = (Normal r, w') /\
       spy_calls k w' = spy_calls k w + n).
Proof.
  assert (Counted : forall n c g k rest req resp w r w',
     quiet k g ->
     Forall (quiet_value k) rest ->
     chain req resp
       (VFunction (callNextTimes n c) :: VFunction (spy k g) :: rest) w
       = (Normal r, w') ->
     spy_calls k w' = spy_calls k w + n).
  { intros n c g k rest req resp w r w' Hg Hrest H.
    unfold chain in H. rewrite run_cons in H by done.
    apply bind_normal_inv in H as (r0 & w0 & Hr0 & H).
    apply clone_request_inv in Hr0 as (cq & _ & -> & ->).
    apply bind_normal_inv in H as (x & w1 & Hcall & H).
    apply clone_response_inv in H as (cx & _ & -> & ->).
    simpl call in Hcall. unfold callNextTimes in Hcall.
    apply bind_normal_inv in Hcall as ([] & wa & Hawait & Hnew).
    inversion Hnew; subst x w1. clear Hnew.
    apply (await_next_counts k) in Hawait; [exact Hawait|].
    intros w2 u w3. by apply next_counts_one. }
  split; [exact Counted|].
  intros n c c1 k req resp w cq cr Hq Hr.
  assert (Q : quiet k (respondWith c1)).
  { intros r next _. apply silent_new_response. }
  destruct (await_next_returns k c1 req resp cq cr n (entered w cq))
    as (wa & Hawait); [by apply lookup_old|done|].
  eexists _, _. split.
  - unfold chain. rewrite (run_enter _ _ _ _ _ cq) by done.
    simpl call. unfold callNextTimes. rewrite bind_assoc.
    rewrite (bind_normal _ _ _ _ _ Hawait).
    unfold bind, new_response, clone_response. simpl.
    rewrite lookup_new. reflexivity.
  - eapply (Counted n c (respondWith c1) k [] req resp w); [done|done|].
    unfold chain. rewrite (run_enter _ _ _ _ _ cq) by done.
    simpl call. unfold callNextTimes. rewrite bind_assoc.
    rewrite (bind_normal _ _ _ _ _ Hawait).
    unfold bind, new_response, clone_response. simpl.
    rewrite lookup_new. reflexivity.
Qed.

(** *** Failures *)




(** *** Entries that are not functions *)




(** C1. The guard of [run] is never taken: [seen] is created empty by
    [chain] and nothing adds to it.  With a first handler that awaits
    [next()] and then returns [next()], the spied second handler is called
    twice, and the response returned is the one the second handler made in
    its second call (status 200), not a duplicate of the response [chain]
    was given (status 400). *)
Theorem second_next_runs_handlers_again :
  let out :=
    chain 0 0 [VFunction nextTwice; VFunction (spy 7 (respondWith hello))] world0 in
  spy_calls 7 out.2 = 2 /\
  responses world0 !! 0 = Some (response_init None 400) /\
  exists r, out.1 = Normal r /\ responses out.2 !! r = Some hello.
Proof.
  vm_compute. split; [reflexivity|]. split; [reflexivity|].
  eexists. split; reflexivity.
Qed.

Lemma keeps_justThrough : keeps_instances justThrough.
Proof. intros r next Hn. apply Hn. Qed.

Lemma keeps_respondWith c : keeps_instances (respondWith c).
Proof.
  intros r next _ w. unfold respondWith, new_response. simpl.
  rewrite length_app. lia.
Qed.

Lemma result_is_fresh_duplicate_witness :
  let hs := [justThrough; respondWith hello] in
  let out := chain 0 0 (VFunction <$> hs) world0 in
  let s := (Chain.construct (VFunction <$> hs) store0).2 in
  let cd := response_init None 400 in
  let w := world_post in
  Forall keeps_instances hs /\
  0 < length (responses world0) /\
  out = (Normal 5, out.2) /\
  5 <> 0 /\
  Chain.handlers 0 s = Some 1 /\
  Chain.read 1 s = Some (VFunction <$> hs) /\
  requests w !! 0 = Some posted /\
  default_is (Some 0) w cd /\
  exists m r1 s1 w3,
    Chain.respond drained 0 s 0 (Some 0) = Some m /\
    m w = chain r1 s1 (VFunction <$> hs) w3 /\
    requests w3 !! r1 = Some posted /\
    responses w3 !! s1 = Some cd /\
    (forall d, Some 0 = Some d -> s1 <> d) /\
    (forall i c, responses w !! i = Some c -> responses w3 !! i = Some c) /\
    (hs = [] ->
     exists r w', m w = (Normal r, w') /\ responses w' !! r = Some cd) /\
    forall r w',
      m w = (Normal r, w') ->
      (forall d, Some 0 = Some d -> r <> d) /\
      (forall y c, responses w !! y = Some c -> r <> y) /\
      r <> s1 /\
      exists src w1 c,
        responses w1 !! src = Some c /\
        responses w' !! r = Some c /\
        w' = with_responses (responses w1 ++ [c]) w1 /\
        r <> src /\
        (forall y, y < length (responses w1) -> r <> y) /\
        length (responses w3) <= length (responses w1) /\
        exists cq',
          requests w3 !! r1 = Some cq' /\
          justThrough (length (requests w3))
            (nextHandler (run ∅ (VFunction <$> [respondWith hello])) r1 s1)
            (entered w3 cq') = (Normal src, w1).
Proof.
  intros hs out s cd w.
  assert (Hk : Forall keeps_instances hs).
  { repeat constructor; [apply keeps_justThrough|apply keeps_respondWith]. }
  assert (Hlt : 0 < length (responses world0)) by (simpl; lia).
  exact (conj Hk (conj Hlt (conj eq_refl
           (conj (proj1 (proj1 result_is_fresh_duplicate hs 0 0 world0 5 out.2
                           Hk Hlt eq_refl))
              (conj eq_refl (conj eq_refl (conj eq_refl (conj eq_refl
                 (proj2 (proj2 (proj2 result_is_fresh_duplicate)) drained hs
                    0 s 1 0 (Some 0) w posted cd
                    Hk eq_refl eq_refl eq_refl eq_refl))))))))).
Defined.

Lemma request_forwarding_witness :
  let f := append_header "server" "deno" in
  let h1 := respondWith hello in
  let cq := request_of_url "http://localhost" in
  let cr := response_init None 400 in
  let next1 := nextHandler (run ∅ []) (1 + 1) 1 in
  let finish := fun x =>
    let! y := clone_response x in
    let! z := clone_response y in
    clone_response z in
  let unchanged := forwarded (entered world0 (f cq)) cq cr in
  let changed := forwarded (entered world0 (f cq)) (f cq) cr in
  requests world0 !! 0 = Some cq /\
  responses world0 !! 0 = Some cr /\
  headers_get "server" (req_headers cq) = None /\
  headers_get "server" (req_headers (f cq)) = Some "deno" /\
  (chain 0 0 [VFunction (mutateThenNext f); VFunction h1] world0
     = (let! x := h1 (1 + 2) next1 in finish x) unchanged /\
   requests unchanged !! 1 = Some (f cq) /\
   requests unchanged !! (1 + 2) = Some cq /\
   1 + 2 <> 1) /\
  (chain 0 0 [VFunction (mutateThenForward f); VFunction h1] world0
     = (let! x := h1 (1 + 2) next1 in finish x) changed /\
   requests changed !! 1 = Some (f cq) /\
   requests changed !! (1 + 2) = Some (f cq) /\
   1 + 2 <> 1).
Proof.
  intros f h1 cq cr next1 finish unchanged changed.
  split; [reflexivity|]. split; [reflexivity|].
  split; [reflexivity|]. split; [reflexivity|].
  exact (request_forwarding f h1 0 0 world0 cq cr eq_refl eq_refl).
Defined.

Lemma each_next_call_runs_tail_witness :
  requests world0 !! 0 = Some (request_of_url "http://localhost") /\
  responses world0 !! 0 = Some (response_init None 400) /\
  exists r w',
    chain 0 0 [VFunction (callNextTimes 3 hello);
               VFunction (spy 7 (respondWith hello))] world0
      = (Normal r, w') /\
    spy_calls 7 w' = spy_calls 7 world0 + 3.
Proof.
  split; [reflexivity|]. split; [reflexivity|].
  exact (proj2 each_next_call_runs_tail 3 hello hello 7 0 0 world0 _ _
           eq_refl eq_refl).
Defined.

(** C7. In [chain(request, response, h0, h1)] with an [h0] that returns
    the response [x] without a use of [next], the call returns a new
    instance with the content [x] had; the spy records of the store are
    those of the moment [h0] returned, so the spied [h1] was not called;
    and the outcome is the same whatever stands in the place of [h1]. *)
Theorem short_circuit_skips_rest m g k req resp w cq x w1 cx :
  requests w !! req = Some cq ->
  m (length (requests w)) (entered w cq) = (Normal x, w1) ->
  responses w1 !! x = Some cx ->
  exists r w',
    chain req resp [VFunction (withoutNext m); VFunction (spy k g)] w
      = (Normal r, w') /\
    responses w' !! r = Some cx /\
    r <> x /\
    calls w' = calls w1 /\
    spy_calls k w' = spy_calls k w1 /\
    calls (entered w cq) = calls w /\
    forall v, chain req resp [VFunction (withoutNext m); v] w = (Normal r, w').
Proof.
  intros Hq Hm Hx.
  assert (Any : forall v,
    chain req resp [VFunction (withoutNext m); v] w =
      (Normal (length (responses w1)), with_responses (responses w1 ++ [cx]) w1)).
  { intros v. unfold chain. rewrite (run_enter _ _ _ _ _ cq) by done.
    simpl call. unfold withoutNext.
    rewrite (bind_normal _ _ _ _ _ Hm). by apply clone_response_ok. }
  eexists _, _. split; [apply Any|]. simpl.
  repeat split; try done.
  - apply lookup_new.
  - apply lookup_lt_Some in Hx. lia.
Qed.

Lemma short_circuit_skips_rest_witness :
  exists r w',
    chain 0 0 [VFunction (withoutNext (fun _ => new_response hello));
               VFunction (spy 7 (respondWith (response_init None 500)))] world0
      = (Normal r, w') /\
    responses w' !! r = Some hello /\
    r <> 1 /\
    calls w' = [] /\
    spy_calls 7 w' = 0 /\
    calls (entered world0 (request_of_url "http://localhost")) = calls world0 /\
    forall v, chain 0 0 [VFunction (withoutNext (fun _ => new_response hello)); v] world0
              = (Normal r, w').
Proof.
  exact (short_circuit_skips_rest (fun _ => new_response hello)
           (respondWith (response_init None 500)) 7 0 0 world0
           (request_of_url "http://localhost") 1 _ hello
           eq_refl eq_refl eq_refl).
Defined.

End EngineFacts.


(** ** The builder: construction and call chaining *)

Section BuilderMore.

Import Chain.

Lemma construct_spec init s :
  construct init s =
    (length (chain_store s),
     {| array_store := array_store s ++ [[]; init];
        chain_store := chain_store s ++ [S (length (array_store s))] |}).
Proof.
  unfold construct, new_array_of. simpl.
  rewrite length_app, <- app_assoc. simpl. by rewrite Nat.add_1_r.
Qed.

Lemma next_all_spec bs :
  forall this s a old,
    handlers this s = Some a ->
    read a s = Some old ->
    exists s' a',
      next_all this bs s = Some (this, s') /\
      handlers this s' = Some a' /\
      read a' s' = Some (old ++ concat bs) /\
      length (chain_store s') = length (chain_store s) /\
      (forall b l, read b s = Some l -> read b s' = Some l) /\
      (forall other, other <> this -> handlers other s' = handlers other s).
Proof.
  induction bs as [|b bs IH]; intros this s a old Hh Hr; simpl.
  - exists s, a. rewrite app_nil_r. by repeat split.
  - rewrite (next_spec this b s a old Hh Hr).
    set (s1 := {| array_store := array_store s ++ [b; old ++ b];
                  chain_store := <[this := S (length (array_store s))]> (chain_store s) |}).
    assert (H1 : handlers this s1 = Some (S (length (array_store s)))).
    { unfold handlers. simpl. apply list_lookup_insert_eq.
      by apply lookup_lt_Some in Hh. }
    assert (R1 : read (S (length (array_store s))) s1 = Some (old ++ b)).
    { unfold read. simpl. rewrite lookup_app_r by lia.
      by replace (S (length (array_store s)) - length (array_store s)) with 1 by lia. }
    destruct (IH this s1 _ _ H1 R1) as (s' & a' & Hn & Hh' & Hr' & Hlen & Hold & Hother).
    exists s', a'. repeat split; try done.
    + by rewrite Hr', <- app_assoc.
    + rewrite Hlen. simpl. apply length_insert.
    + intros c l Hc. apply Hold. unfold read in *. simpl.
      by apply lookup_app_l_Some.
    + intros other Hne. rewrite (Hother other Hne). unfold handlers. simpl.
      by apply list_lookup_insert_ne.
Qed.

Lemma construct_next_all init bs s :
  exists s' a',
    next_all (construct init s).1 bs (construct init s).2
      = Some ((construct init s).1, s') /\
    handlers (construct init s).1 s' = Some a' /\
    read a' s' = Some (init ++ concat bs).
Proof.
  rewrite construct_spec. simpl.
  set (s0 := {| array_store := array_store s ++ [[]; init];
                chain_store := chain_store s ++ [S (length (array_store s))] |}).
  assert (H0 : handlers (length (chain_store s)) s0 = Some (S (length (array_store s)))).
  { unfold handlers. simpl. apply lookup_new. }
  assert (R0 : read (S (length (array_store s))) s0 = Some init).
  { unfold read. simpl. rewrite lookup_app_r by lia.
    by replace (S (length (array_store s)) - length (array_store s)) with 1 by lia. }
  destruct (next_all_spec bs _ s0 _ _ H0 R0) as (s' & a' & Hn & Hh & Hr & _).
  by exists s', a'.
Qed.

(** X1. [new Chain(...init).next(...b1).next(...b2)...]: every call
    returns the builder made, and its handlers are then [init] followed by
    the arguments of the calls, in the order of the calls and of the
    arguments; their number is the sum of the numbers given. *)
Theorem chained_next_concatenates init bs s :
  let this := (construct init s).1 in
  exists s' a',
    next_all this bs (construct init s).2 = Some (this, s') /\
    handlers this s' = Some a' /\
    read a' s' = Some (init ++ concat bs) /\
    length (init ++ concat bs) = length init + sum_list (length <$> bs).
Proof.
  intros this. subst this.
  destruct (construct_next_all init bs s) as (s' & a' & Hn & Hh & Hr).
  exists s', a'. repeat split; try done.
  rewrite length_app. f_equal.
  clear. induction bs as [|b bs IH]; simpl; [done|].
  by rewrite length_app, IH.
Qed.

(** X2. Builders do not share their handlers.  A call of [next] that
    returns, returns the builder it was called on, and leaves the handlers
    of every other builder and the content of every array as they were;
    [new Chain] makes a builder that is none of those there are and leaves
    theirs as they were. *)
Theorem builders_are_independent :
  (forall this hs s returned s',
     next this hs s = Some (returned, s') ->
     returned = this /\
     (forall other, other <> this -> handlers other s' = handlers other s) /\
     (forall b l, read b s = Some l -> read b s' = Some l)) /\
  (forall init s other a,
     handlers other s = Some a ->
     (construct init s).1 <> other /\
     handlers other (construct init s).2 = Some a /\
     (forall b l, read b s = Some l -> read b (construct init s).2 = Some l)).
Proof.
  split.
  - intros this hs s returned s' H. unfold next in H.
    destruct (chain_store s !! this) as [old_ref|] eqn:Hthis; [|discriminate].
    unfold new_array_of in H. simpl in H.
    destruct ((array_store s ++ [hs]) !! old_ref) as [old|]; [|discriminate].
    rewrite lookup_new in H. inversion H; subst. clear H.
    repeat split.
    + intros other Hne. unfold handlers. simpl. by apply list_lookup_insert_ne.
    + intros b l Hb. unfold read in *. simpl.
      by repeat apply lookup_app_l_Some.
  - intros init s other a Ho. rewrite construct_spec. simpl.
    unfold handlers, read in *. simpl. repeat split.
    + apply lookup_lt_Some in Ho. lia.
    + by apply lookup_app_l_Some.
    + intros b l Hb. by apply lookup_app_l_Some.
Qed.

Lemma builders_are_independent_witness :
  let s := (construct [VFunction justThrough] (construct [] store0).2).2 in
  next 1 [VFunction (respondWith hello)] s
    = Some (1, {| array_store := [[]; []; []; [VFunction justThrough];
                                  [VFunction (respondWith hello)];
                                  [VFunction justThrough; VFunction (respondWith hello)]];
                  chain_store := [1; 5] |}) /\
  handlers 0 (mkStore [[]; []; []; [VFunction justThrough];
                       [VFunction (respondWith hello)];
                       [VFunction justThrough; VFunction (respondWith hello)]]
                [1; 5]) = handlers 0 s.
Proof.
  intros s. split; [reflexivity|].
  exact (proj1 (proj2 (proj1 builders_are_independent 1
                          [VFunction (respondWith hello)] s 1 _ eq_refl))
           0 ltac:(discriminate)).
Defined.

End BuilderMore.

(** ** The engine: stacks of middleware *)

Section EngineMore.

Local Arguments run : simpl never.

Lemma update_response_ok x g c w :
  responses w !! x = Some c ->
  update_response x g w
    = (Normal tt, with_responses (<[x := g c]> (responses w)) w).
Proof. intros H. unfold update_response. by rewrite H. Qed.

Lemma next_answers tl F req resp arg w cq cr :
  answers tl F ->
  requests w !! default req arg = Some cq ->
  responses w !! resp = Some cr ->
  exists u w',
    nextHandler (run ∅ tl) req resp arg w = (Normal u, w') /\
    responses w' !! u = Some (F cq cr).
Proof.
  intros Htl Hq Hr. unfold nextHandler.
  rewrite (bind_normal _ _ _ _ _ (clone_request_ok _ cq _ Hq)).
  rewrite (bind_normal _ _ _ _ _
             (clone_response_ok resp cr (with_requests (requests w ++ [cq]) w) Hr)).
  destruct (Htl (length (requests w)) (length (responses w))
              (with_responses (responses w ++ [cr])
                 (with_requests (requests w ++ [cq]) w)) cq cr)
    as (x & w1 & Hrun & Hx); [apply lookup_new|apply lookup_new|].
  unfold chain in Hrun. rewrite (bind_normal _ _ _ _ _ Hrun).
  rewrite (clone_response_ok x _ w1 Hx).
  eexists _, _. split; [reflexivity|]. apply lookup_new.
Qed.

Lemma answers_nil : answers [] (fun _ cr => cr).
Proof.
  intros req resp w cq cr Hq Hr. unfold chain. rewrite run_nil.
  rewrite (clone_response_ok resp cr (with_arrays (S (arrays w)) w) Hr).
  eexists _, _. split; [reflexivity|]. apply lookup_new.
Qed.

Lemma answers_respondFrom g rest :
  answers (VFunction (respondFrom g) :: rest) (fun cq _ => g cq).
Proof.
  intros req resp w cq cr Hq Hr. unfold chain.
  rewrite (run_enter _ _ _ _ _ cq) by done. simpl call.
  unfold respondFrom, read_request, bind, new_response, clone_response. simpl.
  rewrite lookup_new. simpl. rewrite lookup_new.
  eexists _, _. split; [reflexivity|]. apply lookup_new.
Qed.

Lemma answers_layer l tl F :
  answers tl F -> answers (VFunction (layer l) :: tl) (through [l] F).
Proof.
  intros Htl req resp w cq cr Hq Hr. unfold chain.
  rewrite (run_enter _ _ _ _ _ cq) by done. simpl call.
  destruct l as [|f|f|g]; simpl layer; simpl through.
  - unfold justThrough.
    destruct (next_answers tl F req resp None (entered w cq) cq cr Htl)
      as (u & w1 & Hn & Hu); [by apply lookup_old|done|].
    rewrite (bind_normal _ _ _ _ _ Hn), (clone_response_ok u _ w1 Hu).
    eexists _, _. split; [reflexivity|]. apply lookup_new.
  - unfold mutateThenForward. rewrite bind_assoc.
    rewrite (bind_normal _ _ _ _ _ (update_entered w cq f)).
    destruct (next_answers tl F req resp (Some (length (requests w)))
                (entered w (f cq)) (f cq) cr Htl)
      as (u & w1 & Hn & Hu); [apply lookup_new|done|].
    rewrite (bind_normal _ _ _ _ _ Hn), (clone_response_ok u _ w1 Hu).
    eexists _, _. split; [reflexivity|]. apply lookup_new.
  - unfold mutateThenNext. rewrite bind_assoc.
    rewrite (bind_normal _ _ _ _ _ (update_entered w cq f)).
    destruct (next_answers tl F req resp None (entered w (f cq)) cq cr Htl)
      as (u & w1 & Hn & Hu); [by apply lookup_old|done|].
    rewrite (bind_normal _ _ _ _ _ Hn), (clone_response_ok u _ w1 Hu).
    eexists _, _. split; [reflexivity|]. apply lookup_new.
  - unfold transformResponse. rewrite bind_assoc.
    destruct (next_answers tl F req resp None (entered w cq) cq cr Htl)
      as (u & w1 & Hn & Hu); [by apply lookup_old|done|].
    rewrite (bind_normal _ _ _ _ _ Hn). rewrite bind_assoc.
    rewrite (bind_normal _ _ _ _ _ (update_response_ok u g _ w1 Hu)).
    unfold bind, ret.
    erewrite clone_response_ok;
      [|simpl; apply list_lookup_insert_eq; by apply lookup_lt_Some in Hu].
    eexists _, _. split; [reflexivity|]. apply lookup_new.
Qed.

Lemma through_cons l ls F cq cr :
  through (l :: ls) F cq cr = through [l] (through ls F) cq cr.
Proof. by destruct l. Qed.

(** X3. [chain] over handlers [(_, next) => next()], any number of them:
    the call returns, and what it returns has the content of the response
    it was given. *)
Theorem pass_through_returns_fallback n req resp w cq cr :
  requests w !! req = Some cq ->
  responses w !! resp = Some cr ->
  exists x w',
    chain req resp (repeat (VFunction justThrough) n) w = (Normal x, w') /\
    responses w' !! x = Some cr.
Proof.
  assert (All : answers (repeat (VFunction justThrough) n) (fun _ cr => cr)).
  { induction n as [|n IH]; [exact answers_nil|].
    exact (answers_layer Through _ _ IH). }
  apply All.
Qed.

Lemma pass_through_returns_fallback_witness :
  requests world0 !! 0 = Some (request_of_url "http://localhost") /\
  responses world0 !! 0 = Some (response_init None 400) /\
  exists x w',
    chain 0 0 (repeat (VFunction justThrough) 7) world0 = (Normal x, w') /\
    responses w' !! x = Some (response_init None 400).
Proof.
  split; [reflexivity|]. split; [reflexivity|].
  exact (pass_through_returns_fallback 7 0 0 world0 _ _ eq_refl eq_refl).
Defined.

(** X4. A stack of the README's middleware above handlers that answer by
    [F] answers by [through ls F]: a layer calling [next(request)] hands
    its change of the request down, a layer calling [next()] does not, and
    the changes the layers make to the response they await apply from the
    innermost layer outwards. *)
Theorem layers_compose ls tl F :
  answers tl F ->
  answers (((fun l => VFunction (layer l)) <$> ls) ++ tl) (through ls F).
Proof.
  intros Htl. induction ls as [|l ls IH]; simpl fmap; simpl app.
  - exact Htl.
  - intros req resp w cq cr Hq Hr. rewrite through_cons.
    by apply (answers_layer l _ _ IH).
Qed.

Lemma layers_compose_witness :
  let echo := fun cq =>
    response_init (headers_get "x-proxy" (req_headers cq)) 200 in
  let tl := [VFunction (respondFrom echo);
             VFunction (respondWith (response_init (Some "goodby") 200))] in
  let ls := [Through;
             Keep (append_header "x-effect" "no effect");
             Forward (append_header "x-proxy" "chain");
             Transform (append_response_header "server" "deno")] in
  answers tl (fun cq _ => echo cq) /\
  answers (((fun l => VFunction (layer l)) <$> ls) ++ tl)
    (through ls (fun cq _ => echo cq)) /\
  through ls (fun cq _ => echo cq)
    (request_of_url "http://localhost") (response_init None 404)
    = {| res_status := 200; res_headers := [("server", "deno")];
         res_body := Some "chain" |}.
Proof.
  intros echo tl ls.
  pose proof (answers_respondFrom echo
                [VFunction (respondWith (response_init (Some "goodby") 200))]) as Htl.
  exact (conj Htl (conj (layers_compose ls tl _ Htl) eq_refl)).
Defined.

Lemma respond_then_answers used this s a hs F req dflt w cq cd :
  Chain.handlers this s = Some a ->
  Chain.read a s = Some hs ->
  answers hs F ->
  requests w !! req = Some cq ->
  default_is dflt w cd ->
  exists m r w',
    Chain.respond used this s req dflt = Some m /\
    m w = (Normal r, w') /\
    responses w' !! r = Some (F cq cd).
Proof.
  intros Hh Hr Hhs Hq Hd.
  destruct (respond_calls_chain used this s a hs req dflt w cq cd Hh Hr Hq Hd)
    as (m & r1 & s1 & w3 & Hm & Hrun & Hr1 & Hs1 & _).
  destruct (Hhs r1 s1 w3 cq cd Hr1 Hs1) as (r & w' & Hc & Hres).
  exists m, r, w'. by rewrite Hrun.
Qed.

(** X5. [respond] answers as the handlers of the builder do: when they
    answer by [F], [respond(request, defaultResponse)] returns a response
    of content [F cq cd], for the contents [cq] of the request and [cd] of
    the default response, and [respond(request)] one of content
    [F cq] of the empty response of status 404. *)
Theorem respond_answers used this s a hs F req w cq :
  Chain.handlers this s = Some a ->
  Chain.read a s = Some hs ->
  answers hs F ->
  requests w !! req = Some cq ->
  (forall d cd,
     responses w !! d = Some cd ->
     exists m r w',
       Chain.respond used this s req (Some d) = Some m /\
       m w = (Normal r, w') /\
       responses w' !! r = Some (F cq cd)) /\
  (exists m r w',
     Chain.respond used this s req None = Some m /\
     m w = (Normal r, w') /\
     responses w' !! r = Some (F cq (response_init None 404))).
Proof.
  intros Hh Hr Hhs Hq. split.
  - intros d cd Hd.
    by apply (respond_then_answers used this s a hs F req (Some d) w cq cd).
  - by apply (respond_then_answers used this s a hs F req None w cq).
Qed.

Lemma respond_answers_witness :
  let s := (Chain.construct [VFunction justThrough] store0).2 in
  Chain.handlers 0 s = Some 1 /\
  Chain.read 1 s = Some [VFunction justThrough] /\
  requests world0 !! 0 = Some (request_of_url "http://localhost") /\
  exists m r w',
    Chain.respond drained 0 s 0 None = Some m /\
    m world0 = (Normal r, w') /\
    responses w' !! r = Some (response_init None 404).
Proof.
  intros s. split; [reflexivity|]. split; [reflexivity|]. split; [reflexivity|].
  exact (proj2 (respond_answers drained 0 s 1 [VFunction justThrough]
                  (fun _ cr => cr)
                  0 world0 _ eq_refl eq_refl
                  (answers_layer Through [] _ answers_nil) eq_refl)).
Defined.

Lemma insert_new {X} (l : list X) (c d : X) :
  <[length l := d]> (l ++ [c]) = l ++ [d].
Proof. rewrite insert_app_r_alt by lia. by rewrite Nat.sub_diag. Qed.

(** The way out of a response [x] through [next], a first handler changing
    it by [g], and [run]: two clones, the change, one more clone. *)
Lemma await_change_return x g c w1 :
  responses w1 !! x = Some c ->
  (let! a := let! y := clone_response x in clone_response y in
   let! x0 := let! _ := update_response a g in ret a in
   clone_response x0) w1
    = (Normal (length (responses w1) + 2),
       with_responses (responses w1 ++ [c; g c; g c]) w1).
Proof.
  intros Hx. rewrite !bind_assoc.
  rewrite (bind_normal _ _ _ _ _ (clone_response_ok x c w1 Hx)).
  rewrite (bind_normal _ _ _ _ _
             (clone_response_ok (length (responses w1)) c
                (with_responses (responses w1 ++ [c]) w1) (lookup_new _ _))).
  simpl. rewrite bind_assoc.
  rewrite (bind_normal _ _ _ _ _
             (update_response_ok (length (responses w1 ++ [c])) g c
                (with_responses ((responses w1 ++ [c]) ++ [c])
                   (with_responses (responses w1 ++ [c]) w1))
                (lookup_new _ _))).
  unfold bind, ret. simpl. rewrite insert_new.
  rewrite (clone_response_ok (length (responses w1 ++ [c])) (g c)); [|apply lookup_new].
  simpl. rewrite !length_app. simpl.
  unfold with_responses. simpl. rewrite <- !app_assoc. simpl.
  by replace (length (responses w1) + 1 + 1) with (length (responses w1) + 2) by lia.
Qed.

Lemma answers_respondWith c rest :
  answers (VFunction (respondWith c) :: rest) (fun _ _ => c).
Proof.
  intros req resp w cq cr Hq Hr. unfold chain.
  rewrite (run_enter _ _ _ _ _ cq) by done. simpl call.
  unfold respondWith, bind, new_response, clone_response. simpl.
  rewrite lookup_new.
  eexists _, _. split; [reflexivity|]. apply lookup_new.
Qed.

(** X10. A builder filled by [new Chain(...init)] and chained calls of
    [next] responds with the handlers it has when [respond] is called: when
    [init] followed by the arguments of the calls answer by [F],
    [respond(request)] returns a response of content [F cq] of the empty
    response of status 404. *)
Theorem built_chain_responds used init bs F s req w cq :
  answers (init ++ concat bs) F ->
  requests w !! req = Some cq ->
  let this := (Chain.construct init s).1 in
  exists s' m r w',
    next_all this bs (Chain.construct init s).2 = Some (this, s') /\
    Chain.respond used this s' req None = Some m /\
    m w = (Normal r, w') /\
    responses w' !! r = Some (F cq (response_init None 404)).
Proof.
  intros HF Hq this. subst this.
  destruct (construct_next_all init bs s) as (s' & a' & Hn & Hh & Hr).
  destruct (respond_then_answers used _ s' a' _ F req None w cq _
              Hh Hr HF Hq eq_refl)
    as (m & r & w' & Hm & Hrun & Hres).
  by exists s', m, r, w'.
Qed.

Lemma built_chain_responds_witness :
  let test := response_init (Some "test") 200 in
  let init := [VFunction justThrough] in
  let bs := [[VFunction justThrough; VFunction justThrough; VFunction justThrough];
             [VFunction (respondWith test)]] in
  answers (init ++ concat bs) (fun _ _ => test) /\
  requests world0 !! 0 = Some (request_of_url "http://localhost") /\
  exists s' m r w',
    next_all (Chain.construct init store0).1 bs (Chain.construct init store0).2
      = Some ((Chain.construct init store0).1, s') /\
    Chain.respond drained (Chain.construct init store0).1 s' 0 None = Some m /\
    m world0 = (Normal r, w') /\
    responses w' !! r = Some test.
Proof.
  intros test init bs.
  assert (A : answers (init ++ concat bs) (fun _ _ => test)).
  { exact (answers_layer Through _ _ (answers_layer Through _ _
             (answers_layer Through _ _ (answers_layer Through _ _
                (answers_respondWith test []))))). }
  exact (conj A (conj eq_refl
           (built_chain_responds drained init bs _ store0 0 world0 _ A eq_refl))).
Defined.

(** X6. Two handlers, the first changing by [g] the response it awaited
    from [next()] and returning it: [chain] returns a response with the
    content the second handler's response [x] had, changed by [g], while
    the instance [x] the second handler returned still has the content it
    had. *)
Theorem response_changes_stay_upstream g (h1 : ChainableHandler)
    req resp w cq cr x w1 cx :
  requests w !! req = Some cq ->
  responses w !! resp = Some cr ->
  h1 (length (requests w) + 2)
    (nextHandler (run ∅ []) (length (requests w) + 1) (length (responses w)))
    (forwarded (entered w cq) cq cr) = (Normal x, w1) ->
  responses w1 !! x = Some cx ->
  exists r w',
    chain req resp [VFunction (transformResponse g); VFunction h1] w
      = (Normal r, w') /\
    responses w' !! r = Some (g cx) /\
    responses w' !! x = Some cx /\
    r <> x.
Proof.
  intros Hq Hr Hcall Hx.
  unfold chain. rewrite (run_enter _ _ _ _ _ cq) by done.
  simpl call. unfold transformResponse. rewrite bind_assoc.
  erewrite bind_cong;
    [|apply (next_enter _ _ _ _ _ _ cq cr); [done|by apply lookup_old|done]].
  rewrite bind_assoc. simpl call.
  rewrite length_app. simpl length.
  replace (S (length (requests w) + 1)) with (length (requests w) + 2) by lia.
  rewrite (bind_normal _ _ _ _ _ Hcall).
  pose proof (lookup_lt_Some _ _ _ Hx) as Hlt.
  rewrite (await_change_return x g cx w1 Hx).
  eexists _, _. split; [reflexivity|]. simpl.
  repeat split; [| |lia].
  - rewrite lookup_app_r by lia.
    by replace (length (responses w1) + 2 - length (responses w1)) with 2 by lia.
  - by apply lookup_app_l_Some.
Qed.

Lemma response_changes_stay_upstream_witness :
  let g := append_response_header "server" "deno" in
  requests world0 !! 0 = Some (request_of_url "http://localhost") /\
  responses world0 !! 0 = Some (response_init None 400) /\
  exists r w',
    chain 0 0 [VFunction (transformResponse g); VFunction (respondWith hello)] world0
      = (Normal r, w') /\
    responses w' !! r = Some (g hello) /\
    responses w' !! 2 = Some hello /\
    r <> 2.
Proof.
  intros g. split; [reflexivity|]. split; [reflexivity|].
  exact (response_changes_stay_upstream g (respondWith hello) 0 0 world0
           _ _ 2 _ hello eq_refl eq_refl eq_refl eq_refl).
Defined.

(** *** One call per handler, at any depth *)

Lemma silent_after {A B} k (m : M A) (f : A -> M B) w :
  (forall a, silent k (f a)) ->
  spy_calls k (bind m f w).2 = spy_calls k (m w).2.
Proof.
  intros Hf. unfold bind. destruct (m w) as [[a|e] w1]; simpl; [|done].
  apply Hf.
Qed.

Lemma run_spy_counts_one k g rest req resp w cq :
  quiet k g ->
  Forall (quiet_value k) rest ->
  requests w !! req = Some cq ->
  spy_calls k (run ∅ (VFunction (spy k g) :: rest) req resp w).2
    = S (spy_calls k w).
Proof.
  intros Hg Hrest Hq. rewrite (run_enter _ _ _ _ _ cq) by done.
  rewrite silent_after by (intros a; apply silent_clone_response).
  simpl call. rewrite spy_counts_one; [done|done|].
  apply silent_nextHandler. intros r s. by apply silent_run.
Qed.

(** X7. Behind any number of handlers [(_, next) => next()], a spied
    handler is called once by one call of [chain], whether it returns or
    throws: the spy has one record more. *)
Theorem delegation_depth_calls_once n g k rest req resp w cq cr :
  quiet k g ->
  Forall (quiet_value k) rest ->
  requests w !! req = Some cq ->
  responses w !! resp = Some cr ->
  spy_calls k
    (chain req resp
       (repeat (VFunction justThrough) n ++ VFunction (spy k g) :: rest) w).2
    = spy_calls k w + 1.
Proof.
  intros Hg Hrest. unfold chain. revert req resp w.
  induction n as [|n IH]; intros req resp w Hq Hr; simpl repeat; simpl app.
  - rewrite (run_spy_counts_one k g rest req resp w cq) by done. lia.
  - rewrite (run_enter _ _ _ _ _ cq) by done.
    rewrite silent_after by (intros a; apply silent_clone_response).
    simpl call. unfold justThrough, nextHandler.
    rewrite (bind_normal _ _ _ _ _
               (clone_request_ok req cq (entered w cq) (lookup_old _ _ _ _ Hq))).
    rewrite (bind_normal _ _ _ _ _
               (clone_response_ok resp cr
                  (with_requests (requests (entered w cq) ++ [cq]) (entered w cq))
                  Hr)).
    rewrite silent_after by (intros a; apply silent_clone_response).
    rewrite IH by apply lookup_new. done.
Qed.

Lemma delegation_depth_calls_once_witness :
  quiet 7 (throwing "boom") /\
  Forall (quiet_value 7) [VFunction (respondWith hello)] /\
  requests world0 !! 0 = Some (request_of_url "http://localhost") /\
  responses world0 !! 0 = Some (response_init None 400) /\
  spy_calls 7
    (chain 0 0
       (repeat (VFunction justThrough) 4
          ++ VFunction (spy 7 (throwing "boom")) :: [VFunction (respondWith hello)])
       world0).2
    = spy_calls 7 world0 + 1.
Proof.
  assert (Q : quiet 7 (throwing "boom")) by (intros r next _; apply silent_throw).
  assert (R : Forall (quiet_value 7) [VFunction (respondWith hello)]).
  { apply Forall_cons. split; [|apply Forall_nil; done].
    intros r next _. apply silent_new_response. }
  exact (conj Q (conj R (conj eq_refl (conj eq_refl
           (delegation_depth_calls_once 4 (throwing "boom") 7
              [VFunction (respondWith hello)] 0 0 world0 _ _ Q R eq_refl eq_refl))))).
Defined.

(** *** Instances are left as they are *)

Lemma frames_weaken {A} p q (P Q : A -> Prop) (m : M A) :
  (forall a, P a -> Q a) -> frames p q P m -> frames p q Q m.
Proof.
  intros HPQ Hm w Hp Hq. destruct (Hm w Hp Hq) as (H1 & H2 & H3).
  repeat split; try done. intros a Ha. by apply HPQ, H3.
Qed.

Lemma take_eq_length {X} n (l l' : list X) :
  n <= length l -> take n l' = take n l -> n <= length l'.
Proof.
  intros Hn H. apply (f_equal length) in H.
  rewrite !length_take in H. lia.
Qed.

Lemma frames_bind {A B} p q (P : A -> Prop) (Q : B -> Prop)
    (m : M A) (f : A -> M B) :
  frames p q P m ->
  (forall a, P a -> frames p q Q (f a)) ->
  frames p q Q (bind m f).
Proof.
  intros Hm Hf w Hp Hq. destruct (Hm w Hp Hq) as (H1 & H2 & H3).
  unfold bind. destruct (m w) as [[a|e] w1]; simpl in *.
  - destruct (Hf a (H3 a eq_refl) w1) as (K1 & K2 & K3).
    + by apply (take_eq_length _ (requests w)).
    + by apply (take_eq_length _ (responses w)).
    + repeat split; [by rewrite K1|by rewrite K2|done].
  - repeat split; try done.
Qed.

Lemma frames_ret {A} p q (P : A -> Prop) a : P a -> frames p q P (ret a).
Proof.
  intros Ha w _ _. repeat split. simpl. intros b Hb. inversion Hb. by subst.
Qed.

Lemma frames_new_array p q : frames p q (fun _ => True) new_array.
Proof. intros w _ _. by repeat split. Qed.

Lemma frames_new_response p q c : frames p q (fun x => q <= x) (new_response c).
Proof.
  intros w Hp Hq. unfold new_response. simpl. repeat split.
  - by apply take_app_le.
  - intros a Ha. inversion Ha. by subst.
Qed.

Lemma frames_clone_request p q r : frames p q (fun x => p <= x) (clone_request r).
Proof.
  intros w Hp Hq. unfold clone_request, new_request.
  destruct (requests w !! r); simpl; repeat split; try done.
  - by apply take_app_le.
  - intros a Ha. inversion Ha. by subst.
Qed.

Lemma frames_clone_response p q r : frames p q (fun x => q <= x) (clone_response r).
Proof.
  intros w Hp Hq. unfold clone_response.
  destruct (responses w !! r); [by apply frames_new_response|].
  by repeat split.
Qed.

Lemma frames_read_request p q r : frames p q (fun _ => True) (read_request r).
Proof.
  intros w _ _. unfold read_request. by destruct (requests w !! r).
Qed.

Lemma frames_update_request p q (r : ReqRef) f :
  p <= r -> frames p q (fun _ => True) (update_request r f).
Proof.
  intros Hr w _ _. unfold update_request.
  destruct (requests w !! r); simpl; repeat split; try done.
  by apply take_insert_ge.
Qed.

Lemma frames_update_response p q (x : ResRef) g :
  q <= x -> frames p q (fun _ => True) (update_response x g).
Proof.
  intros Hx w _ _. unfold update_response.
  destruct (responses w !! x); simpl; repeat split; try done.
  by apply take_insert_ge.
Qed.

Lemma frames_nextHandler p q f req resp :
  (forall r s, frames p q (fun x => q <= x) (f r s)) ->
  forall a, frames p q (fun x => q <= x) (nextHandler f req resp a).
Proof.
  intros Hf a. unfold nextHandler.
  eapply frames_bind; [apply frames_clone_request|]. intros r _.
  eapply frames_bind; [apply frames_clone_response|]. intros s _.
  eapply frames_bind; [apply Hf|]. intros x _.
  apply frames_clone_response.
Qed.

Lemma frames_run seen hs :
  Forall local_value hs ->
  forall req resp p q, frames p q (fun x => q <= x) (run seen hs req resp).
Proof.
  induction 1 as [|v hs Hv Hhs IH]; intros req resp p q;
    unfold run; fold run;
    (eapply frames_bind; [apply frames_new_array|]); intros a _;
    destruct (seen_has seen a); try apply frames_clone_response.
  destruct (truthy v); simpl; [|apply frames_clone_response].
  eapply frames_bind; [apply frames_clone_request|]. intros r Hr.
  eapply frames_bind; [|intros x _; apply frames_clone_response].
  destruct v; simpl; try (by intros w _ _).
  apply (Hv r _ p q Hr). by apply frames_nextHandler.
Qed.

Lemma frames_lookups {A} (m : M A) (P : A -> Prop) w :
  frames (length (requests w)) (length (responses w)) P m ->
  (forall i c, requests w !! i = Some c -> requests (m w).2 !! i = Some c) /\
  (forall i c, responses w !! i = Some c -> responses (m w).2 !! i = Some c).
Proof.
  intros Hm. destruct (Hm w) as (H1 & H2 & _); [done|done|].
  rewrite firstn_all in H1, H2. split; intros i c Hi.
  - rewrite <- H1 in Hi. by apply lookup_take_Some in Hi as [? _].
  - rewrite <- H2 in Hi. by apply lookup_take_Some in Hi as [? _].
Qed.

Lemma local_justThrough : local justThrough.
Proof.
  intros r next p q _ Hn. unfold justThrough.
  by apply (frames_weaken _ _ (fun x => q <= x)).
Qed.

Lemma local_respondWith c : local (respondWith c).
Proof.
  intros r next p q _ _. unfold respondWith.
  by apply (frames_weaken _ _ (fun x => q <= x)), frames_new_response.
Qed.

Lemma local_respondFrom g : local (respondFrom g).
Proof.
  intros r next p q _ _. unfold respondFrom.
  eapply frames_bind; [apply frames_read_request|]. intros c _.
  by apply (frames_weaken _ _ (fun x => q <= x)), frames_new_response.
Qed.

Lemma local_layer l : local (layer l).
Proof.
  destruct l as [|f|f|g]; simpl; [apply local_justThrough| | |];
    intros r next p q Hr Hn.
  - unfold mutateThenForward.
    eapply frames_bind; [by apply frames_update_request|]. intros _ _.
    by apply (frames_weaken _ _ (fun x => q <= x)).
  - unfold mutateThenNext.
    eapply frames_bind; [by apply frames_update_request|]. intros _ _.
    by apply (frames_weaken _ _ (fun x => q <= x)).
  - unfold transformResponse.
    eapply frames_bind; [apply Hn|]. intros x Hx.
    eapply frames_bind; [by apply frames_update_response|]. intros _ _.
    by apply frames_ret.
Qed.

(** X8. With handlers that change no instance but those the engine gave
    them or they made, a call of [chain] leaves every [Request] and every
    [Response] instance that existed when it was called with the content it
    had, the request and the response given among them; and so does a call
    of [next], for the instances the calling handler holds. *)
Theorem chain_leaves_instances hs req resp w :
  Forall local_value hs ->
  ((forall i c, requests w !! i = Some c ->
                requests (chain req resp hs w).2 !! i = Some c) /\
   (forall i c, responses w !! i = Some c ->
                responses (chain req resp hs w).2 !! i = Some c)) /\
  (forall a,
     (forall i c, requests w !! i = Some c ->
        requests (nextHandler (run ∅ hs) req resp a w).2 !! i = Some c) /\
     (forall i c, responses w !! i = Some c ->
        responses (nextHandler (run ∅ hs) req resp a w).2 !! i = Some c)).
Proof.
  intros Hhs. split.
  - unfold chain. eapply frames_lookups. by apply frames_run.
  - intros a. eapply frames_lookups.
    apply frames_nextHandler. intros r s. by apply frames_run.
Qed.

Lemma chain_leaves_instances_witness :
  let hs := [VFunction (layer (Keep (append_header "x-effect" "no effect")));
             VFunction (layer (Transform (append_response_header "server" "deno")));
             VFunction (respondWith hello)] in
  Forall local_value hs /\
  requests (chain 0 0 hs world0).2 !! 0 = Some (request_of_url "http://localhost") /\
  responses (chain 0 0 hs world0).2 !! 0 = Some (response_init None 400).
Proof.
  intros hs.
  assert (L : Forall local_value hs).
  { apply Forall_cons; split; [apply local_layer|].
    apply Forall_cons; split; [apply local_layer|].
    apply Forall_cons; split; [apply local_respondWith|]. by apply Forall_nil. }
  pose proof (proj1 (chain_leaves_instances hs 0 0 world0 L)) as [Hq Hr].
  exact (conj L (conj (Hq 0 _ eq_refl) (Hr 0 _ eq_refl))).
Defined.



End EngineMore.
